(** * openstb.i18n.support: catalogue search, fallback chains and translators

    A shallow embedding of [src/openstb/i18n/support.py].  The module keeps
    two pieces of process-wide state, the language preference [_languages]
    and the registry [_domain_translations]; both are threaded explicitly
    through the operations below.  What the module obtains from outside
    (the locale expander, the package resources, the catalogue files and
    the process environment) is gathered in the record [Env]. *)

From Stdlib Require Import Ascii String ZArith.
From stdpp Require Import base list strings.

Local Open Scope string_scope.
Local Open Scope list_scope.

(** ** Results of fallible operations *)

Inductive exn : Type :=
| LoadError        (* opening or decoding a catalogue file failed *)
| AttributeError   (* an attribute was read before it was ever set *)
| TypeError.       (* a translator was called with the wrong signature *)

Inductive result (A : Type) : Type :=
| Ok (a : A)
| Raise (e : exn).
Arguments Ok {A} a.
Arguments Raise {A} e.

(** ** The standard library's translation classes

    [support.py] instantiates [gettext.NullTranslations] and
    [gettext.GNUTranslations] and calls [add_fallback] and the four lookup
    methods on them.  These classes belong to the Python standard library
    (Lib/gettext.py, Python 3.11); they are transcribed here method by
    method because the behaviour of a fallback chain is decided there. *)
Module Gettext.

(** Keys of the [_catalog] dictionary: a message id, or a pair of a
    message id and a plural-form index. *)
Inductive Key : Type :=
| KMsg (msgid : string)
| KPlural (msgid1 : string) (index : Z).

Definition Key_eqb (k1 k2 : Key) : bool :=
  match k1, k2 with
  | KMsg a, KMsg b => String.eqb a b
  | KPlural a i, KPlural b j => String.eqb a b && Z.eqb i j
  | _, _ => false
  end.

(** What [GNUTranslations._parse] leaves behind: the [_catalog]
    dictionary and the [plural] function of the catalogue's header. *)
Record Catalog : Type := {
  _catalog : list (Key * string);
  plural : Z -> Z
}.

(** [self._catalog.get(key)] *)
Fixpoint catalog_get (entries : list (Key * string)) (key : Key) : option string :=
  match entries with
  | [] => None
  | (k, tmsg) :: entries' =>
      if Key_eqb k key then Some tmsg else catalog_get entries' key
  end.

(** [plural = lambda n: int(n != 1)], the default of [_parse]. *)
Definition germanic_plural (n : Z) : Z := if Z.eqb n 1 then 0%Z else 1%Z.

(** [CONTEXT = "%s\x04%s"] *)
Definition CONTEXT (context message : string) : string :=
  context +:+ String (Ascii.ascii_of_nat 4) message.

(** A translation object; [_fallback] is [None] until [add_fallback]
    sets it. *)
#[local] Unset Elimination Schemes.
Inductive Translations : Type :=
| NullTranslations (_fallback : option Translations)
| GNUTranslations (catalog : Catalog) (_fallback : option Translations).
#[local] Set Elimination Schemes.

(** Induction along the fallback links. *)
Fixpoint Translations_ind (P : Translations -> Prop)
    (null_last : P (NullTranslations None))
    (null_link : forall f, P f -> P (NullTranslations (Some f)))
    (gnu_last : forall c, P (GNUTranslations c None))
    (gnu_link : forall c f, P f -> P (GNUTranslations c (Some f)))
    (t : Translations) : P t :=
  match t with
  | NullTranslations None => null_last
  | NullTranslations (Some f) =>
      null_link f (Translations_ind P null_last null_link gnu_last gnu_link f)
  | GNUTranslations c None => gnu_last c
  | GNUTranslations c (Some f) =>
      gnu_link c f (Translations_ind P null_last null_link gnu_last gnu_link f)
  end.

Definition fallback_of (t : Translations) : option Translations :=
  match t with
  | NullTranslations fb => fb
  | GNUTranslations _ fb => fb
  end.

Fixpoint add_fallback (self fallback : Translations) : Translations :=
  match self with
  | NullTranslations fb =>
      match fb with
      | Some f => NullTranslations (Some (add_fallback f fallback))
      | None => NullTranslations (Some fallback)
      end
  | GNUTranslations c fb =>
      match fb with
      | Some f => GNUTranslations c (Some (add_fallback f fallback))
      | None => GNUTranslations c (Some fallback)
      end
  end.

Fixpoint gettext (self : Translations) (message : string) : string :=
  match self with
  | NullTranslations fb =>
      match fb with
      | Some f => gettext f message
      | None => message
      end
  | GNUTranslations c fb =>
      match catalog_get (_catalog c) (KMsg message) with
      | Some tmsg => tmsg
      | None =>
          match fb with
          | Some f => gettext f message
          | None => message
          end
      end
  end.

Fixpoint ngettext (self : Translations) (msgid1 msgid2 : string) (n : Z) : string :=
  match self with
  | NullTranslations fb =>
      match fb with
      | Some f => ngettext f msgid1 msgid2 n
      | None => if Z.eqb n 1 then msgid1 else msgid2
      end
  | GNUTranslations c fb =>
      match catalog_get (_catalog c) (KPlural msgid1 (plural c n)) with
      | Some tmsg => tmsg
      | None =>
          match fb with
          | Some f => ngettext f msgid1 msgid2 n
          | None => if Z.eqb n 1 then msgid1 else msgid2
          end
      end
  end.

Fixpoint pgettext (self : Translations) (context message : string) : string :=
  match self with
  | NullTranslations fb =>
      match fb with
      | Some f => pgettext f context message
      | None => message
      end
  | GNUTranslations c fb =>
      match catalog_get (_catalog c) (KMsg (CONTEXT context message)) with
      | Some tmsg => tmsg
      | None =>
          match fb with
          | Some f => pgettext f context message
          | None => message
          end
      end
  end.

Fixpoint npgettext (self : Translations) (context msgid1 msgid2 : string) (n : Z)
  : string :=
  match self with
  | NullTranslations fb =>
      match fb with
      | Some f => npgettext f context msgid1 msgid2 n
      | None => if Z.eqb n 1 then msgid1 else msgid2
      end
  | GNUTranslations c fb =>
      match catalog_get (_catalog c)
              (KPlural (CONTEXT context msgid1) (plural c n)) with
      | Some tmsg => tmsg
      | None =>
          match fb with
          | Some f => npgettext f context msgid1 msgid2 n
          | None => if Z.eqb n 1 then msgid1 else msgid2
          end
      end
  end.

End Gettext.

(** ** The environment of the module *)

(** An [importlib.resources] location, named by its path. *)
Definition Traversable : Type := string.

Record Env : Type := {
  (** [gettext._expand_lang]: the variants of a language tag, most
      specific first. *)
  _expand_lang : string -> list string;
  (** [resources.files(package)]; [None] stands for [ModuleNotFoundError]. *)
  files : string -> option Traversable;
  (** [Traversable.joinpath] and [Traversable.is_file] *)
  joinpath : Traversable -> string -> Traversable;
  is_file : Traversable -> bool;
  (** [catalog_path.open("rb")] followed by the parse that
      [GNUTranslations(catalog)] runs; [None] when either raises. *)
  load : Traversable -> option Gettext.Catalog;
  (** [os.environ.get] *)
  environ : string -> option string
}.

(** ** [_find_catalogs] *)

(** The body of the inner loop, over the variants of one language.
    [catalogs] is the list the source appends to. *)
Fixpoint find_in_specs (E : Env) (mo_fn : string) (specs : list string)
    (catalogs : list (option Traversable)) : list (option Traversable) :=
  match specs with
  | [] => catalogs
  | spec :: specs' =>
      if String.eqb spec "C" then
        catalogs ++ [None]                                      (* break *)
      else
        match files E ("openstb.locale." +:+ spec +:+ ".LC_MESSAGES") with
        | None => find_in_specs E mo_fn specs' catalogs         (* continue *)
        | Some lc_messages =>
            let catalog := joinpath E lc_messages mo_fn in
            if is_file E catalog then
              find_in_specs E mo_fn specs' (catalogs ++ [Some catalog])
            else
              find_in_specs E mo_fn specs' catalogs
        end
  end.

(** The outer loop, over the preferred languages. *)
Fixpoint find_in_languages (E : Env) (mo_fn : string) (languages : list string)
    (catalogs : list (option Traversable)) : list (option Traversable) :=
  match languages with
  | [] => catalogs
  | language :: languages' =>
      find_in_languages E mo_fn languages'
        (find_in_specs E mo_fn (_expand_lang E language) catalogs)
  end.

Definition _find_catalogs (E : Env) (languages : list string) (domain : string)
  : list (option Traversable) :=
  let mo_fn := domain +:+ ".mo" in
  find_in_languages E mo_fn languages [].

(** ** [_DomainTranslations] *)

Record _DomainTranslations : Type := {
  domain : string;
  (** [None] while the attribute [translations] has not been assigned. *)
  translations : option Gettext.Translations
}.

(** The four bound methods that [domain_translator] hands out take
    different argument lists. *)
Inductive Args : Type :=
| args_message (message : string)
| args_plural (singular plural : string) (n : Z)
| args_context (context message : string)
| args_context_plural (context singular plural : string) (n : Z).

Inductive Method : Type := m_gettext | m_ngettext | m_pgettext | m_npgettext.

Module DomainTranslations.

(** "Load the catalog": the body of the loop up to the chain update. *)
Definition load_translation (E : Env) (catalog_path : option Traversable)
  : option Gettext.Translations :=
  match catalog_path with
  | None => Some (Gettext.NullTranslations None)
  | Some path =>
      match load E path with
      | Some catalog => Some (Gettext.GNUTranslations catalog None)
      | None => None
      end
  end.

(** The loop of [set_languages].  An exception leaves [self] as the
    iterations before it have made it. *)
Fixpoint set_languages_loop (E : Env) (catalog_paths : list (option Traversable))
    (is_base : bool) (self : _DomainTranslations)
  : _DomainTranslations * result unit :=
  match catalog_paths with
  | [] => (self, Ok tt)
  | catalog_path :: catalog_paths' =>
      match load_translation E catalog_path with
      | None => (self, Raise LoadError)
      | Some translation =>
          if is_base then
            set_languages_loop E catalog_paths' false
              {| domain := domain self; translations := Some translation |}
          else
            match translations self with
            | Some base =>
                set_languages_loop E catalog_paths' false
                  {| domain := domain self;
                     translations := Some (Gettext.add_fallback base translation) |}
            | None => (self, Raise AttributeError)
            end
      end
  end.

Definition set_languages (E : Env) (languages : list string)
    (self : _DomainTranslations) : _DomainTranslations * result unit :=
  set_languages_loop E (_find_catalogs E languages (domain self)) true self.

Definition __init__ (E : Env) (languages : list string) (domain : string)
  : result _DomainTranslations :=
  match set_languages E languages {| domain := domain; translations := None |} with
  | (self, Ok _) => Ok self
  | (_, Raise e) => Raise e
  end.

Definition gettext (self : _DomainTranslations) (message : string) : result string :=
  match translations self with
  | Some t => Ok (Gettext.gettext t message)
  | None => Raise AttributeError
  end.

Definition ngettext (self : _DomainTranslations) (singular plural : string) (n : Z)
  : result string :=
  match translations self with
  | Some t => Ok (Gettext.ngettext t singular plural n)
  | None => Raise AttributeError
  end.

Definition pgettext (self : _DomainTranslations) (context message : string)
  : result string :=
  match translations self with
  | Some t => Ok (Gettext.pgettext t context message)
  | None => Raise AttributeError
  end.

Definition npgettext (self : _DomainTranslations)
    (context singular plural : string) (n : Z) : result string :=
  match translations self with
  | Some t => Ok (Gettext.npgettext t context singular plural n)
  | None => Raise AttributeError
  end.

(** Calling method [m] of [self] with the argument list [args]. *)
Definition call (m : Method) (self : _DomainTranslations) (args : Args)
  : result string :=
  match m, args with
  | m_gettext, args_message message => gettext self message
  | m_ngettext, args_plural singular plural n => ngettext self singular plural n
  | m_pgettext, args_context context message => pgettext self context message
  | m_npgettext, args_context_plural context singular plural n =>
      npgettext self context singular plural n
  | _, _ => Raise TypeError
  end.

End DomainTranslations.

(** ** Module state *)

(** [_DomainTranslations] instances are shared between the registry and
    the bound methods handed to callers, so they live in a store and are
    referred to by address. *)
Record State : Type := {
  _languages : list string;
  objects : list _DomainTranslations;
  (** the dictionary [_domain_translations], in insertion order *)
  _domain_translations : list (string * nat)
}.

Definition initial_state : State :=
  {| _languages := ["C"]; objects := []; _domain_translations := [] |}.

(** A bound method: the instance it is bound to and the function. *)
Record BoundMethod : Type := { im_self : nat; im_func : Method }.

Fixpoint dict_get (d : list (string * nat)) (key : string) : option nat :=
  match d with
  | [] => None
  | (k, v) :: d' => if String.eqb k key then Some v else dict_get d' key
  end.

(** [str.split(sep)] for a one-character separator. *)
Fixpoint split (sep : Ascii.ascii) (s : string) : list string :=
  match s with
  | EmptyString => [EmptyString]
  | String c s' =>
      if Ascii.eqb c sep then EmptyString :: split sep s'
      else
        match split sep s' with
        | [] => [String c EmptyString]
        | w :: ws => String c w :: ws
        end
  end.

(** Truth value of a string: non-empty. *)
Definition truthy (s : string) : bool :=
  match s with
  | EmptyString => false
  | String _ _ => true
  end.

(** The loop over the environment variables; [languages] is the value of
    [_languages] when the loop is entered. *)
Fixpoint languages_from_environ (E : Env) (envnames : list string)
    (languages : list string) : list string :=
  match envnames with
  | [] => languages
  | envname :: envnames' =>
      match environ E envname with
      | Some envval =>
          if truthy envval then split ":"%char envval                (* break *)
          else languages_from_environ E envnames' languages
      | None => languages_from_environ E envnames' languages
      end
  end.

(** "Always include the no-localisation C locale as a fallback." *)
Definition include_C (languages : list string) : list string :=
  if existsb (fun language => String.eqb language "C") languages
  then languages else languages ++ ["C"].

(** "Update any existing domain instances": the loop over
    [_domain_translations.values()]. *)
Fixpoint update_domains (E : Env) (languages : list string) (values : list nat)
    (objs : list _DomainTranslations) : list _DomainTranslations * result unit :=
  match values with
  | [] => (objs, Ok tt)
  | a :: values' =>
      match objs !! a with
      | None => update_domains E languages values' objs
      | Some translation =>
          match DomainTranslations.set_languages E languages translation with
          | (translation', Ok _) =>
              update_domains E languages values' (<[a := translation']> objs)
          | (translation', Raise e) => (<[a := translation']> objs, Raise e)
          end
      end
  end.

(** The value of [_languages] after the [if languages: ... else: ...]
    statement: the arguments, or what the environment gives once the list
    has been cleared. *)
Definition requested_languages (E : Env) (languages : list string) : list string :=
  match languages with
  | _ :: _ => languages
  | [] => languages_from_environ E ["LANGUAGE"; "LC_ALL"; "LC_MESSAGES"; "LANG"] []
  end.

Definition set_languages (E : Env) (languages : list string) (st : State)
  : State * result unit :=
  let languages' := include_C (requested_languages E languages) in
  let '(objs, r) :=
    update_domains E languages' (map snd (_domain_translations st)) (objects st) in
  ({| _languages := languages'; objects := objs;
      _domain_translations := _domain_translations st |}, r).

Definition domain_translator (E : Env) (domain : string) (plural context : bool)
    (st : State) : State * result BoundMethod :=
  let func :=
    if context then (if plural then m_npgettext else m_pgettext)
    else (if plural then m_ngettext else m_gettext) in
  match dict_get (_domain_translations st) domain with
  | Some a => (st, Ok {| im_self := a; im_func := func |})
  | None =>
      match DomainTranslations.__init__ E (_languages st) domain with
      | Raise e => (st, Raise e)
      | Ok self =>
          let a := length (objects st) in
          ({| _languages := _languages st;
              objects := objects st ++ [self];
              _domain_translations := _domain_translations st ++ [(domain, a)] |},
           Ok {| im_self := a; im_func := func |})
      end
  end.

(** Calling a translator obtained earlier, in the current state. *)
Definition call (st : State) (f : BoundMethod) (args : Args) : result string :=
  match objects st !! im_self f with
  | Some self => DomainTranslations.call (im_func f) self args
  | None => Raise AttributeError
  end.

(** ** Sequences of calls *)

(** The two public entry points, as a caller issues them. *)
Inductive Call : Type :=
| call_set_languages (languages : list string)
| call_domain_translator (domain : string) (plural context : bool).

(** The state a call leaves behind, whether it returns or raises. *)
Definition exec (E : Env) (st : State) (c : Call) : State :=
  match c with
  | call_set_languages languages => fst (set_languages E languages st)
  | call_domain_translator domain plural context =>
      fst (domain_translator E domain plural context st)
  end.

Definition run (E : Env) (calls : list Call) (st : State) : State :=
  fold_left (exec E) calls st.

(** ** What the search records for one language, stated directly

    The variants before the first ["C"], each with the catalogue file
    found for it (if any), and whether a ["C"] variant was reached. *)

Definition catalog_for (E : Env) (mo_fn : string) (spec : string) : option Traversable :=
  match files E ("openstb.locale." +:+ spec +:+ ".LC_MESSAGES") with
  | Some lc_messages =>
      if is_file E (joinpath E lc_messages mo_fn)
      then Some (joinpath E lc_messages mo_fn) else None
  | None => None
  end.

Fixpoint before_C (specs : list string) : list string :=
  match specs with
  | [] => []
  | spec :: specs' => if String.eqb spec "C" then [] else spec :: before_C specs'
  end.

Definition reaches_C (specs : list string) : bool :=
  existsb (fun spec => String.eqb spec "C") specs.

Definition recorded_for (E : Env) (mo_fn : string) (specs : list string)
  : list (option Traversable) :=
  map Some (omap (catalog_for E mo_fn) (before_C specs))
  ++ (if reaches_C specs then [None] else []).

(** The entries of a chain, from the primary translation to the last
    fallback. *)
Inductive Entry : Type :=
| Identity
| Loaded (catalog : Gettext.Catalog).

(** The object of an entry, given what its [_fallback] refers to. *)
Definition link (e : Entry) (fallback : option Gettext.Translations)
  : Gettext.Translations :=
  match e with
  | Identity => Gettext.NullTranslations fallback
  | Loaded c => Gettext.GNUTranslations c fallback
  end.

Fixpoint chain_of (entries : list Entry) : option Gettext.Translations :=
  match entries with
  | [] => None
  | e :: entries' => Some (link e (chain_of entries'))
  end.

(** The entry a located catalogue becomes; [None] when the file cannot
    be decoded. *)
Definition load_entry (E : Env) (catalog_path : option Traversable) : option Entry :=
  match catalog_path with
  | None => Some Identity
  | Some path => option_map Loaded (load E path)
  end.

(** The entries decoded before the first file that fails, and whether
    every file was decoded. *)
Fixpoint load_prefix (E : Env) (catalog_paths : list (option Traversable))
  : list Entry * bool :=
  match catalog_paths with
  | [] => ([], true)
  | catalog_path :: rest =>
      match load_entry E catalog_path with
      | Some e => let '(es, complete) := load_prefix E rest in (e :: es, complete)
      | None => ([], false)
      end
  end.

(** The four lookups on what may follow an entry: the rest of the chain,
    or nothing, in which case the input comes back. *)
Definition gettext_from (rest : option Gettext.Translations) (message : string)
  : string :=
  match rest with
  | Some f => Gettext.gettext f message
  | None => message
  end.

Definition ngettext_from (rest : option Gettext.Translations)
    (msgid1 msgid2 : string) (n : Z) : string :=
  match rest with
  | Some f => Gettext.ngettext f msgid1 msgid2 n
  | None => if Z.eqb n 1 then msgid1 else msgid2
  end.

Definition pgettext_from (rest : option Gettext.Translations)
    (context message : string) : string :=
  match rest with
  | Some f => Gettext.pgettext f context message
  | None => message
  end.

Definition npgettext_from (rest : option Gettext.Translations)
    (context msgid1 msgid2 : string) (n : Z) : string :=
  match rest with
  | Some f => Gettext.npgettext f context msgid1 msgid2 n
  | None => if Z.eqb n 1 then msgid1 else msgid2
  end.

(** Whether an argument list fits the signature of a method. *)
Definition signature (m : Method) (args : Args) : bool :=
  match m, args with
  | m_gettext, args_message _ => true
  | m_ngettext, args_plural _ _ _ => true
  | m_pgettext, args_context _ _ => true
  | m_npgettext, args_context_plural _ _ _ _ => true
  | _, _ => false
  end.

(** ** The environment default, as the specification words it

    "Inspect LANGUAGE, then LC_ALL, then LC_MESSAGES, then LANG; take the
    first one that is set and non-empty, split on [:]." *)

Definition set_and_non_empty (E : Env) (envname : string) : option string :=
  match environ E envname with
  | Some envval => if truthy envval then Some envval else None
  | None => None
  end.

Definition spec_environment_tags (E : Env) : option (list string) :=
  match set_and_non_empty E "LANGUAGE" with
  | Some v => Some (split ":"%char v)
  | None =>
  match set_and_non_empty E "LC_ALL" with
  | Some v => Some (split ":"%char v)
  | None =>
  match set_and_non_empty E "LC_MESSAGES" with
  | Some v => Some (split ":"%char v)
  | None =>
  match set_and_non_empty E "LANG" with
  | Some v => Some (split ":"%char v)
  | None => None
  end end end end.

(** ** A sample installation

    The German catalogue of the test-suite's domain, an Austrian
    catalogue for the same domain, and a French file that cannot be
    decoded.  The expander is given by the values that [_expand_lang]
    of Python 3.11 returns for the tags used below; it first passes the
    tag through [locale.normalize], which is why "de" and "DE" both
    expand to the variants of "de_DE.ISO8859-1". *)
Module Sample.
Import Gettext.

Definition test_domain : string := "openstb.i18n_test".

Definition de_catalog : Catalog :=
  {| _catalog :=
       [ (KMsg "A simple test message", "Eine einfache Testmeldung");
         (KPlural "{count:d} plugin was found" 0, "{count:d} Plugin wurde gefunden");
         (KPlural "{count:d} plugin was found" 1, "{count:d} Plugins wurden gefunden") ];
     plural := germanic_plural |}.

Definition de_AT_catalog : Catalog :=
  {| _catalog := [ (KMsg "January", "Jaenner") ];
     plural := germanic_plural |}.

Definition expand (loc : string) : list string :=
  if String.eqb loc "C" then ["C"]
  else if String.eqb loc "de" then ["de_DE.ISO8859-1"; "de_DE"; "de.ISO8859-1"; "de"]
  else if String.eqb loc "DE" then ["de_DE.ISO8859-1"; "de_DE"; "de.ISO8859-1"; "de"]
  else if String.eqb loc "en" then ["en_US.ISO8859-1"; "en_US"; "en.ISO8859-1"; "en"]
  else if String.eqb loc "fr" then ["fr_FR.ISO8859-1"; "fr_FR"; "fr.ISO8859-1"; "fr"]
  else if String.eqb loc "de_AT.UTF-8" then ["de_AT.UTF-8"; "de_AT"; "de.UTF-8"; "de"]
  else [loc].

Definition packages (package : string) : option Traversable :=
  if String.eqb package "openstb.locale.de.LC_MESSAGES"
  then Some "openstb/locale/de/LC_MESSAGES"
  else if String.eqb package "openstb.locale.de_AT.LC_MESSAGES"
  then Some "openstb/locale/de_AT/LC_MESSAGES"
  else if String.eqb package "openstb.locale.fr.LC_MESSAGES"
  then Some "openstb/locale/fr/LC_MESSAGES"
  else None.

Definition de_mo : Traversable := "openstb/locale/de/LC_MESSAGES/openstb.i18n_test.mo".
Definition de_AT_mo : Traversable := "openstb/locale/de_AT/LC_MESSAGES/openstb.i18n_test.mo".
Definition fr_mo : Traversable := "openstb/locale/fr/LC_MESSAGES/openstb.i18n_test.mo".

Definition decode (path : Traversable) : option Catalog :=
  if String.eqb path de_mo then Some de_catalog
  else if String.eqb path de_AT_mo then Some de_AT_catalog
  else None.

Definition variables (envname : string) : option string :=
  if String.eqb envname "LC_ALL" then Some ""
  else if String.eqb envname "LC_MESSAGES" then Some "de:en"
  else if String.eqb envname "LANG" then Some "fr"
  else None.

Definition env : Env :=
  {| _expand_lang := expand;
     files := packages;
     joinpath := fun dir name => dir +:+ "/" +:+ name;
     is_file := fun path =>
       String.eqb path de_mo || String.eqb path de_AT_mo || String.eqb path fr_mo;
     load := decode;
     environ := variables |}.

End Sample.

(** ** Well-formed states

    What every state reached from [initial_state] satisfies: the
    preference contains "C", and every address in the registry refers to an
    instance of that domain whose [translations] attribute is set. *)
Definition wf (st : State) : Prop :=
  In "C" (_languages st)
  /\ forall d a, In (d, a) (_domain_translations st) ->
       exists self, objects st !! a = Some self
                    /\ domain self = d
                    /\ is_Some (translations self).

(** The instance that a rebuild leaves behind. *)
Definition rebuilt (E : Env) (languages : list string) (self : _DomainTranslations)
  : _DomainTranslations :=
  fst (DomainTranslations.set_languages E languages self).

(** ** The shape of the registry

    Domains are registered once each, the instance of the [i]-th domain
    registered is the [i]-th object of the store, and it carries that
    domain's name. *)
Definition registry_ok (st : State) : Prop :=
  NoDup (map fst (_domain_translations st))
  /\ map snd (_domain_translations st) = seq 0 (length (objects st))
  /\ map domain (objects st) = map fst (_domain_translations st).

(** The update loop seen from the store: the instances are rebuilt one
    after the other, and the first rebuild that raises ends the loop. *)
Fixpoint rebuild_each (E : Env) (languages : list string)
    (objs : list _DomainTranslations) : list _DomainTranslations * result unit :=
  match objs with
  | [] => ([], Ok tt)
  | self :: objs' =>
      match DomainTranslations.set_languages E languages self with
      | (self', Ok _) =>
          let '(objs'', r) := rebuild_each E languages objs' in (self' :: objs'', r)
      | (self', Raise e) => (self' :: objs', Raise e)
      end
  end.

(** ** Lookups along a list of entries

    The first catalogue, in chain order, that holds the key asked of it.
    The key may depend on the catalogue: a plural lookup uses each
    catalogue's own plural rule. *)
Fixpoint first_translation (key_of : Gettext.Catalog -> Gettext.Key)
    (entries : list Entry) : option string :=
  match entries with
  | [] => None
  | Identity :: entries' => first_translation key_of entries'
  | Loaded c :: entries' =>
      match Gettext.catalog_get (Gettext._catalog c) (key_of c) with
      | Some tmsg => Some tmsg
      | None => first_translation key_of entries'
      end
  end.

(** What a translator returns where nothing is translated. *)
Definition untranslated (args : Args) : string :=
  match args with
  | args_message message => message
  | args_plural singular plural n => if Z.eqb n 1 then singular else plural
  | args_context _ message => message
  | args_context_plural _ singular plural n =>
      if Z.eqb n 1 then singular else plural
  end.

(** [sep.join(fields)] for a one-character separator. *)
Fixpoint join (sep : Ascii.ascii) (fields : list string) : string :=
  match fields with
  | [] => EmptyString
  | [field] => field
  | field :: (_ :: _) as fields' => field +:+ String sep (join sep fields')
  end.

(** [sep in s] *)
Fixpoint contains (sep : Ascii.ascii) (s : string) : bool :=
  match s with
  | EmptyString => false
  | String c s' => Ascii.eqb c sep || contains sep s'
  end.

(** The message id of a key. *)
Definition msgid_of (key : Gettext.Key) : string :=
  match key with
  | Gettext.KMsg msgid => msgid
  | Gettext.KPlural msgid1 _ => msgid1
  end.

(** No message id of the catalogue was compiled from a message with a
    context. *)
Definition without_contexts (e : Entry) : Prop :=
  match e with
  | Identity => True
  | Loaded c =>
      Forall (fun entry => contains (Ascii.ascii_of_nat 4) (msgid_of (fst entry))
                           = false)
             (Gettext._catalog c)
  end.

(** * Properties *)

(** ** The catalogue search *)

Section Locator.
Variable E : Env.
Variable mo_fn : string.

Lemma find_in_specs_acc specs catalogs :
  find_in_specs E mo_fn specs catalogs
  = catalogs ++ find_in_specs E mo_fn specs [].
Proof.
  revert catalogs.
  induction specs as [|spec specs IH]; intros catalogs; simpl.
  - by rewrite app_nil_r.
  - destruct (String.eqb spec "C"); [done|].
    destruct (files E _) as [lc_messages|]; [|apply IH].
    destruct (is_file E _); [|apply IH].
    rewrite (IH (catalogs ++ _)), (IH [_]).
    by rewrite <- app_assoc.
Qed.

Lemma find_in_specs_recorded specs :
  find_in_specs E mo_fn specs [] = recorded_for E mo_fn specs.
Proof.
  unfold recorded_for, reaches_C.
  induction specs as [|spec specs IH]; simpl; [done|].
  destruct (String.eqb spec "C") eqn:HC.
  - done.
  - cbn [omap list_omap]. rewrite orb_false_l.
    unfold catalog_for at 1.
    destruct (files E _) as [lc_messages|]; [|apply IH].
    destruct (is_file E _); [|apply IH].
    rewrite find_in_specs_acc, IH. done.
Qed.

Lemma find_in_languages_acc languages catalogs :
  find_in_languages E mo_fn languages catalogs
  = catalogs ++ find_in_languages E mo_fn languages [].
Proof.
  revert catalogs.
  induction languages as [|language languages IH]; intros catalogs; simpl.
  - by rewrite app_nil_r.
  - rewrite IH, (IH (find_in_specs _ _ _ [])).
    rewrite (find_in_specs_acc _ catalogs).
    by rewrite <- app_assoc.
Qed.

Lemma find_in_languages_cons language languages :
  find_in_languages E mo_fn (language :: languages) []
  = recorded_for E mo_fn (_expand_lang E language)
    ++ find_in_languages E mo_fn languages [].
Proof.
  simpl. by rewrite find_in_languages_acc, find_in_specs_recorded.
Qed.

Lemma find_in_languages_app languages1 languages2 :
  find_in_languages E mo_fn (languages1 ++ languages2) []
  = find_in_languages E mo_fn languages1 []
    ++ find_in_languages E mo_fn languages2 [].
Proof.
  induction languages1 as [|language languages1 IH]; [done|].
  rewrite <- app_comm_cons, !find_in_languages_cons, IH.
  by rewrite <- app_assoc.
Qed.

Lemma recorded_for_C_only : recorded_for E mo_fn ["C"] = [None].
Proof. reflexivity. Qed.

Lemma recorded_for_reaches_C specs :
  In "C" specs -> recorded_for E mo_fn specs <> [].
Proof.
  intros HIn. unfold recorded_for, reaches_C.
  assert (existsb (fun spec => String.eqb spec "C") specs = true) as ->.
  { apply existsb_exists. exists "C". by split. }
  intros Hnil. by apply app_eq_nil in Hnil as [_ ?].
Qed.

Lemma recorded_for_nothing specs :
  Forall (fun spec => spec <> "C" /\ catalog_for E mo_fn spec = None) specs ->
  recorded_for E mo_fn specs = [].
Proof.
  unfold recorded_for, reaches_C.
  induction 1 as [|spec specs [HC Hnone] _ IH]; [done|].
  simpl. apply String.eqb_neq in HC. rewrite HC. simpl.
  by rewrite Hnone.
Qed.

Lemma find_in_languages_with_C languages :
  In "C" (_expand_lang E "C") -> In "C" languages ->
  find_in_languages E mo_fn languages [] <> [].
Proof.
  intros HE HIn.
  apply in_split in HIn as (l1 & l2 & ->).
  rewrite find_in_languages_app, find_in_languages_cons.
  intros Hnil. apply app_eq_nil in Hnil as [_ Hnil].
  apply app_eq_nil in Hnil as [Hnil _].
  by apply recorded_for_reaches_C in Hnil.
Qed.

End Locator.

Lemma find_catalogs_cons E language languages domain :
  _find_catalogs E (language :: languages) domain
  = recorded_for E (domain +:+ ".mo") (_expand_lang E language)
    ++ _find_catalogs E languages domain.
Proof. apply find_in_languages_cons. Qed.

Lemma find_catalogs_app E languages1 languages2 domain :
  _find_catalogs E (languages1 ++ languages2) domain
  = _find_catalogs E languages1 domain ++ _find_catalogs E languages2 domain.
Proof. apply find_in_languages_app. Qed.

(** Whatever follows a language that expands to ["C"] is still searched:
    the [break] leaves the loop over the variants only. *)
Lemma find_catalogs_after_C E language languages domain :
  _expand_lang E language = ["C"] ->
  _find_catalogs E (language :: languages) domain
  = None :: _find_catalogs E languages domain.
Proof. intros HC. by rewrite find_catalogs_cons, HC. Qed.

(** C1.  The docstring of [_find_catalogs] says that searching stops when
    the "C" locale is encountered.  With the preference ["C"; "de"] and a
    German catalogue installed, the search records [None] for "C" and then
    goes on to record the German catalogue. *)
Theorem search_goes_on_after_C :
  _find_catalogs Sample.env ["C"; "de"] Sample.test_domain
  = [None; Some Sample.de_mo].
Proof. reflexivity. Qed.

(** C2, as stated, fails: for the single tag "de_AT.UTF-8", with
    catalogues installed for both "de_AT" and "de", two catalogues are
    recorded. *)
Lemma two_catalogs_for_one_tag :
  _find_catalogs Sample.env ["de_AT.UTF-8"] Sample.test_domain
  = [Some Sample.de_AT_mo; Some Sample.de_mo]
  /\ ~ length (_find_catalogs Sample.env ["de_AT.UTF-8"] Sample.test_domain) <= 1.
Proof. split; [reflexivity|]. vm_compute. lia. Qed.

(** C2, amended.  For each preferred tag the search records the catalogue
    of every variant that has one, most specific first, up to the first
    variant "C" (for which it records [None]); finding a catalogue does not
    end the search of the tag's remaining variants.  It then goes on with
    the next tag. *)
Theorem every_variant_with_a_catalog_is_recorded E language languages domain :
  _find_catalogs E (language :: languages) domain
  = (map Some (omap (catalog_for E (domain +:+ ".mo"))
                 (before_C (_expand_lang E language)))
     ++ (if reaches_C (_expand_lang E language) then [None] else []))
    ++ _find_catalogs E languages domain.
Proof. apply find_catalogs_cons. Qed.

(** C10, as stated, fails on the expansion: the tag "DE" is expanded to
    lower-case variants, so it finds the catalogue installed under "de". *)
Lemma upper_case_tag_finds_lower_case_catalog :
  In "de" (_expand_lang Sample.env "DE")
  /\ _find_catalogs Sample.env ["DE"] Sample.test_domain = [Some Sample.de_mo].
Proof. split; [|reflexivity]. simpl. tauto. Qed.

(** C10, amended.  The search looks every variant up under its own name,
    as the expander returned it ([catalog_for] is the lookup of one
    variant), and a tag none of whose variants is "C" or has a catalogue
    is not an error: the search returns what it returns without that tag. *)
Theorem unmatched_tag_is_skipped E languages1 language languages2 domain :
  Forall (fun spec => spec <> "C" /\ catalog_for E (domain +:+ ".mo") spec = None)
         (_expand_lang E language) ->
  _find_catalogs E (languages1 ++ language :: languages2) domain
  = _find_catalogs E (languages1 ++ languages2) domain.
Proof.
  intros Hnone.
  rewrite !find_catalogs_app, find_catalogs_cons.
  by rewrite (recorded_for_nothing _ _ _ Hnone).
Qed.

Lemma unmatched_tag_is_skipped_witness :
  Forall (fun spec => spec <> "C"
                      /\ catalog_for Sample.env (Sample.test_domain +:+ ".mo") spec = None)
         (_expand_lang Sample.env "not a tag")
  /\ _find_catalogs Sample.env (["de"] ++ "not a tag" :: ["C"]) Sample.test_domain
     = _find_catalogs Sample.env (["de"] ++ ["C"]) Sample.test_domain.
Proof.
  assert (Forall (fun spec => spec <> "C"
            /\ catalog_for Sample.env (Sample.test_domain +:+ ".mo") spec = None)
            (_expand_lang Sample.env "not a tag")) as Hnone.
  { repeat constructor. discriminate. }
  split; [exact Hnone|].
  exact (unmatched_tag_is_skipped Sample.env ["de"] "not a tag" ["C"]
           Sample.test_domain Hnone).
Defined.

(** ** Fallback chains *)

Lemma gettext_link e rest message :
  Gettext.gettext (link e rest) message
  = match e with
    | Identity => gettext_from rest message
    | Loaded c =>
        match Gettext.catalog_get (Gettext._catalog c) (Gettext.KMsg message) with
        | Some tmsg => tmsg
        | None => gettext_from rest message
        end
    end.
Proof. by destruct e, rest. Qed.

Lemma ngettext_link e rest msgid1 msgid2 n :
  Gettext.ngettext (link e rest) msgid1 msgid2 n
  = match e with
    | Identity => ngettext_from rest msgid1 msgid2 n
    | Loaded c =>
        match Gettext.catalog_get (Gettext._catalog c)
                (Gettext.KPlural msgid1 (Gettext.plural c n)) with
        | Some tmsg => tmsg
        | None => ngettext_from rest msgid1 msgid2 n
        end
    end.
Proof. by destruct e, rest. Qed.

Lemma pgettext_link e rest context message :
  Gettext.pgettext (link e rest) context message
  = match e with
    | Identity => pgettext_from rest context message
    | Loaded c =>
        match Gettext.catalog_get (Gettext._catalog c)
                (Gettext.KMsg (Gettext.CONTEXT context message)) with
        | Some tmsg => tmsg
        | None => pgettext_from rest context message
        end
    end.
Proof. by destruct e, rest. Qed.

Lemma npgettext_link e rest context msgid1 msgid2 n :
  Gettext.npgettext (link e rest) context msgid1 msgid2 n
  = match e with
    | Identity => npgettext_from rest context msgid1 msgid2 n
    | Loaded c =>
        match Gettext.catalog_get (Gettext._catalog c)
                (Gettext.KPlural (Gettext.CONTEXT context msgid1) (Gettext.plural c n)) with
        | Some tmsg => tmsg
        | None => npgettext_from rest context msgid1 msgid2 n
        end
    end.
Proof. by destruct e, rest. Qed.

(** [add_fallback] hands the new object down to the end of the chain. *)
Lemma add_fallback_link e entries e' :
  Gettext.add_fallback (link e (chain_of entries)) (link e' None)
  = link e (chain_of (entries ++ [e'])).
Proof.
  revert e. induction entries as [|e1 entries IH]; intros e.
  - by destruct e.
  - simpl. rewrite <- IH. by destruct e.
Qed.

Lemma load_translation_entry E catalog_path :
  DomainTranslations.load_translation E catalog_path
  = option_map (fun e => link e None) (load_entry E catalog_path).
Proof.
  destruct catalog_path as [path|]; simpl; [|done].
  by destruct (load E path).
Qed.

Lemma load_prefix_length E catalog_paths :
  if snd (load_prefix E catalog_paths)
  then length (fst (load_prefix E catalog_paths)) = length catalog_paths
  else length (fst (load_prefix E catalog_paths)) < length catalog_paths.
Proof.
  induction catalog_paths as [|catalog_path rest IH]; simpl; [done|].
  destruct (load_entry E catalog_path); simpl; [|lia].
  destruct (load_prefix E rest) as [es complete]; simpl in *.
  destruct complete; lia.
Qed.

(** The loop of [_DomainTranslations.set_languages] once a base exists. *)
Lemma set_languages_loop_linked E catalog_paths d e entries :
  DomainTranslations.set_languages_loop E catalog_paths false
    {| domain := d; translations := chain_of (e :: entries) |}
  = ({| domain := d;
        translations := chain_of (e :: entries ++ fst (load_prefix E catalog_paths)) |},
     if snd (load_prefix E catalog_paths) then Ok tt else Raise LoadError).
Proof.
  revert entries.
  induction catalog_paths as [|catalog_path rest IH]; intros entries.
  - simpl. by rewrite app_nil_r.
  - cbn [DomainTranslations.set_languages_loop load_prefix].
    rewrite load_translation_entry.
    destruct (load_entry E catalog_path) as [e'|]; cbn [option_map].
    + cbn [translations domain chain_of].
      rewrite add_fallback_link.
      change (Some (link e (chain_of (entries ++ [e']))))
        with (chain_of (e :: entries ++ [e'])).
      rewrite IH. destruct (load_prefix E rest) as [es complete]; simpl.
      by rewrite <- app_assoc.
    + simpl. by rewrite app_nil_r.
Qed.

(** The whole loop: the chain is replaced by the entries decoded before
    the first failure, and left alone when there is none. *)
Lemma set_languages_loop_base E catalog_paths self :
  DomainTranslations.set_languages_loop E catalog_paths true self
  = ({| domain := domain self;
        translations :=
          match fst (load_prefix E catalog_paths) with
          | [] => translations self
          | _ :: _ => chain_of (fst (load_prefix E catalog_paths))
          end |},
     if snd (load_prefix E catalog_paths) then Ok tt else Raise LoadError).
Proof.
  destruct catalog_paths as [|catalog_path rest].
  - by destruct self.
  - cbn [DomainTranslations.set_languages_loop load_prefix].
    rewrite load_translation_entry.
    destruct (load_entry E catalog_path) as [e'|]; cbn [option_map].
    + change (Some (link e' None)) with (chain_of (e' :: [])).
      rewrite set_languages_loop_linked.
      by destruct (load_prefix E rest) as [es complete].
    + by destruct self.
Qed.

(** What [_DomainTranslations.set_languages] leaves in [self], in every
    case. *)
Lemma domain_set_languages_result E languages self :
  DomainTranslations.set_languages E languages self
  = ({| domain := domain self;
        translations :=
          match fst (load_prefix E (_find_catalogs E languages (domain self))) with
          | [] => translations self
          | _ :: _ =>
              chain_of (fst (load_prefix E (_find_catalogs E languages (domain self))))
          end |},
     if snd (load_prefix E (_find_catalogs E languages (domain self)))
     then Ok tt else Raise LoadError).
Proof. apply set_languages_loop_base. Qed.

(** C6, as stated, fails when a catalogue cannot be loaded.  A translator
    is obtained, then the preference is set to "de", "fr": the search
    locates three entries, loading the French file fails, the call raises,
    and the domain is left with the German catalogue alone. *)
Lemma failed_load_leaves_part_of_the_chain :
  let st1 := fst (domain_translator Sample.env Sample.test_domain false false
                    initial_state) in
  let st2 := fst (set_languages Sample.env ["de"; "fr"] st1) in
  snd (set_languages Sample.env ["de"; "fr"] st1) = Raise LoadError
  /\ _find_catalogs Sample.env (_languages st2) Sample.test_domain
     = [Some Sample.de_mo; Some Sample.fr_mo; None]
  /\ objects st2 !! 0
     = Some {| domain := Sample.test_domain;
               translations := chain_of [Loaded Sample.de_catalog] |}
  /\ objects st1 !! 0
     = Some {| domain := Sample.test_domain; translations := chain_of [Identity] |}.
Proof. repeat split. Qed.

(** C6, amended.  A rebuild replaces the domain's chain by the chain of
    the catalogues loaded before the first failure.  When every located
    catalogue loads, that is the entire new chain and the rebuild returns;
    when one fails, the rebuild raises and the domain holds only the part
    loaded so far (its previous chain, when nothing was loaded or
    located). *)
Theorem rebuild_installs_what_was_loaded E languages self :
  let catalog_paths := _find_catalogs E languages (domain self) in
  let loaded := fst (load_prefix E catalog_paths) in
  let complete := snd (load_prefix E catalog_paths) in
  DomainTranslations.set_languages E languages self
  = ({| domain := domain self;
        translations :=
          match loaded with
          | [] => translations self
          | _ :: _ => chain_of loaded
          end |},
     if complete then Ok tt else Raise LoadError)
  /\ (if complete then length loaded = length catalog_paths
      else length loaded < length catalog_paths).
Proof.
  intros catalog_paths loaded complete. split.
  - apply domain_set_languages_result.
  - apply load_prefix_length.
Qed.

(** An identity entry hands every lookup to whatever follows it. *)
Lemma lookups_skip_identity pre post :
  (forall message,
      gettext_from (chain_of (pre ++ Identity :: post)) message
      = gettext_from (chain_of (pre ++ post)) message)
  /\ (forall msgid1 msgid2 n,
      ngettext_from (chain_of (pre ++ Identity :: post)) msgid1 msgid2 n
      = ngettext_from (chain_of (pre ++ post)) msgid1 msgid2 n)
  /\ (forall context message,
      pgettext_from (chain_of (pre ++ Identity :: post)) context message
      = pgettext_from (chain_of (pre ++ post)) context message)
  /\ (forall context msgid1 msgid2 n,
      npgettext_from (chain_of (pre ++ Identity :: post)) context msgid1 msgid2 n
      = npgettext_from (chain_of (pre ++ post)) context msgid1 msgid2 n).
Proof.
  induction pre as [|e pre (IH1 & IH2 & IH3 & IH4)].
  - repeat split; intros; simpl; by destruct (chain_of post).
  - repeat split; intros; cbn [app chain_of gettext_from ngettext_from
                               pgettext_from npgettext_from].
    + rewrite !gettext_link. destruct e; by rewrite IH1.
    + rewrite !ngettext_link. destruct e; by rewrite IH2.
    + rewrite !pgettext_link. destruct e; by rewrite IH3.
    + rewrite !npgettext_link. destruct e; by rewrite IH4.
Qed.

(** C3, as stated, fails.  With the preference "C", "de" the domain's
    chain is an identity entry followed by the German catalogue, and the
    plain lookup returns the German text, not its input. *)
Lemma entry_after_identity_decides :
  let self := fst (DomainTranslations.set_languages Sample.env ["C"; "de"]
                     {| domain := Sample.test_domain; translations := None |}) in
  translations self = chain_of [Identity; Loaded Sample.de_catalog]
  /\ DomainTranslations.gettext self "A simple test message"
     = Ok "Eine einfache Testmeldung"
  /\ DomainTranslations.gettext self "A simple test message"
     <> Ok "A simple test message".
Proof. repeat split. discriminate. Qed.

(** C3, amended.  An identity entry returns its input unchanged only when
    nothing follows it.  Wherever it has entries after it, it forwards each
    of the four lookups to them, so the chain answers exactly as the chain
    without the identity entry does. *)
Theorem identity_entry_forwards pre post message context msgid1 msgid2 n :
  gettext_from (chain_of (pre ++ Identity :: post)) message
  = gettext_from (chain_of (pre ++ post)) message
  /\ ngettext_from (chain_of (pre ++ Identity :: post)) msgid1 msgid2 n
     = ngettext_from (chain_of (pre ++ post)) msgid1 msgid2 n
  /\ pgettext_from (chain_of (pre ++ Identity :: post)) context message
     = pgettext_from (chain_of (pre ++ post)) context message
  /\ npgettext_from (chain_of (pre ++ Identity :: post)) context msgid1 msgid2 n
     = npgettext_from (chain_of (pre ++ post)) context msgid1 msgid2 n.
Proof.
  destruct (lookups_skip_identity pre post) as (H1 & H2 & H3 & H4).
  repeat split; [apply H1 | apply H2 | apply H3 | apply H4].
Qed.

(** ** Domains without a catalogue *)

Lemma recorded_for_no_catalog E mo_fn specs :
  (forall spec, In spec specs -> catalog_for E mo_fn spec = None) ->
  recorded_for E mo_fn specs = if reaches_C specs then [None] else [].
Proof.
  intros Hnone. unfold recorded_for.
  assert (omap (catalog_for E mo_fn) (before_C specs) = []) as ->; [|done].
  induction specs as [|spec specs IH]; [done|].
  simpl. destruct (String.eqb spec "C"); [done|].
  cbn [omap list_omap]. rewrite (Hnone spec) by (by left).
  apply IH. intros spec' HIn. apply Hnone. by right.
Qed.

Lemma find_catalogs_no_catalog E languages domain :
  (forall language spec, In language languages ->
     In spec (_expand_lang E language) ->
     catalog_for E (domain +:+ ".mo") spec = None) ->
  exists k, _find_catalogs E languages domain = repeat None k.
Proof.
  induction languages as [|language languages IH]; intros Hnone.
  - by exists 0.
  - destruct IH as [k Hk].
    { intros language' spec HIn. apply Hnone. by right. }
    rewrite find_catalogs_cons, Hk, recorded_for_no_catalog.
    + destruct (reaches_C _); [by exists (S k) | by exists k].
    + intros spec. apply Hnone. by left.
Qed.

Lemma load_prefix_identities E k :
  load_prefix E (repeat None k) = (repeat Identity k, true).
Proof. induction k as [|k IH]; [done|]. simpl. by rewrite IH. Qed.

Lemma gettext_identities k message :
  gettext_from (chain_of (repeat Identity k)) message = message.
Proof.
  induction k as [|k IH]; [done|].
  cbn [repeat chain_of gettext_from]. by rewrite gettext_link.
Qed.

(** C5.  When no catalogue of the domain is installed for any variant of
    the active languages, rebuilding the domain's chain succeeds, the chain
    holds identity entries only, and the plain lookup returns every
    message unchanged. *)
Theorem gettext_without_catalogs_is_identity E languages self message :
  In "C" (_expand_lang E "C") ->
  In "C" languages ->
  (forall language spec, In language languages ->
     In spec (_expand_lang E language) ->
     catalog_for E (domain self +:+ ".mo") spec = None) ->
  exists k self',
    DomainTranslations.set_languages E languages self = (self', Ok tt)
    /\ translations self' = chain_of (repeat Identity (S k))
    /\ DomainTranslations.gettext self' message = Ok message.
Proof.
  intros HC HIn Hnone.
  destruct (find_catalogs_no_catalog E languages (domain self) Hnone) as [k Hk].
  pose proof (find_in_languages_with_C E (domain self +:+ ".mo") languages HC HIn)
    as Hne.
  fold (_find_catalogs E languages (domain self)) in Hne.
  destruct k as [|k]; [by rewrite Hk in Hne|].
  exists k. eexists. rewrite domain_set_languages_result, Hk, load_prefix_identities.
  split; [reflexivity|]. split; [reflexivity|].
  unfold DomainTranslations.gettext. cbn [translations fst repeat chain_of].
  f_equal. apply (gettext_identities (S k)).
Qed.

Lemma gettext_without_catalogs_is_identity_witness :
  exists k self',
    DomainTranslations.set_languages Sample.env ["en"; "C"]
      {| domain := Sample.test_domain;
         translations := chain_of [Loaded Sample.de_catalog] |} = (self', Ok tt)
    /\ translations self' = chain_of (repeat Identity (S k))
    /\ DomainTranslations.gettext self' "A simple test message"
       = Ok "A simple test message".
Proof.
  apply (gettext_without_catalogs_is_identity Sample.env ["en"; "C"]
           {| domain := Sample.test_domain;
              translations := chain_of [Loaded Sample.de_catalog] |}).
  - simpl. tauto.
  - simpl. tauto.
  - intros language spec Hl Hs. simpl in Hl.
    destruct Hl as [<-|[<-|[]]]; simpl in Hs;
      repeat (destruct Hs as [<-|Hs]; [reflexivity|]); destruct Hs.
Defined.

(** ** The language preference *)

Lemma include_C_test languages :
  existsb (fun language => String.eqb language "C") languages = true
  <-> In "C" languages.
Proof.
  rewrite existsb_exists. split.
  - intros (language & HIn & Heq). apply String.eqb_eq in Heq. by subst.
  - intros HIn. exists "C". by split.
Qed.

Lemma include_C_In languages : In "C" (include_C languages).
Proof.
  unfold include_C.
  destruct (existsb _ languages) eqn:Hex.
  - by apply include_C_test.
  - apply in_or_app. right. by left.
Qed.

Lemma set_languages_languages E languages st :
  _languages (fst (set_languages E languages st))
  = include_C (requested_languages E languages).
Proof. unfold set_languages. by destruct (update_domains _ _ _ _). Qed.

Lemma set_languages_registry E languages st :
  _domain_translations (fst (set_languages E languages st))
  = _domain_translations st.
Proof. unfold set_languages. by destruct (update_domains _ _ _ _). Qed.

(** C7, as stated, fails: tags given by the caller are kept as they are,
    so "C" can occur twice, and it can occur before other tags. *)
Lemma C_twice_or_not_last :
  _languages (fst (set_languages Sample.env ["C"; "C"] initial_state)) = ["C"; "C"]
  /\ count_occ string_dec
       (_languages (fst (set_languages Sample.env ["C"; "C"] initial_state))) "C" <> 1
  /\ _languages (fst (set_languages Sample.env ["C"; "de"] initial_state)) = ["C"; "de"].
Proof. repeat split. vm_compute. lia. Qed.

(** C7, amended.  After every call to [set_languages] the preference list
    contains "C".  When the tags given by the caller (or taken from the
    environment) do not contain "C", it is appended: it then occurs exactly
    once, as the last tag of the list; otherwise the tags are kept as
    given. *)
Theorem set_languages_includes_C E languages st :
  let requested := requested_languages E languages in
  let languages' := _languages (fst (set_languages E languages st)) in
  In "C" languages'
  /\ (~ In "C" requested ->
      languages' = requested ++ ["C"]
      /\ count_occ string_dec languages' "C" = 1
      /\ last languages' = Some "C")
  /\ (In "C" requested -> languages' = requested).
Proof.
  intros requested languages'. subst languages'.
  rewrite set_languages_languages. fold requested.
  split; [apply include_C_In|].
  unfold include_C.
  destruct (existsb _ requested) eqn:Hex.
  - apply include_C_test in Hex. by split.
  - assert (~ In "C" requested) as Hnot.
    { intros HIn. apply include_C_test in HIn. congruence. }
    split; [|done]. intros _. split; [done|]. split.
    + rewrite count_occ_app. apply (count_occ_not_In string_dec) in Hnot.
      by rewrite Hnot.
    + apply last_snoc.
Qed.

Lemma set_languages_includes_C_witness :
  ~ In "C" (requested_languages Sample.env ["de"; "en"])
  /\ _languages (fst (set_languages Sample.env ["de"; "en"] initial_state))
     = ["de"; "en"] ++ ["C"]
  /\ count_occ string_dec
       (_languages (fst (set_languages Sample.env ["de"; "en"] initial_state))) "C" = 1
  /\ last (_languages (fst (set_languages Sample.env ["de"; "en"] initial_state)))
     = Some "C".
Proof.
  assert (~ In "C" (requested_languages Sample.env ["de"; "en"])) as Hnot.
  { simpl. intros [H|[H|[]]]; discriminate. }
  split; [exact Hnot|].
  exact (proj1 (proj2 (set_languages_includes_C Sample.env ["de"; "en"]
                         initial_state)) Hnot).
Defined.


Example set_languages_sample_environment :
  _languages (fst (set_languages Sample.env [] initial_state)) = ["de"; "en"; "C"].
Proof. reflexivity. Qed.

Example split_keeps_empty_fields : split ":" "a::b:" = ["a"; ""; "b"; ""].
Proof. reflexivity. Qed.

(** ** The registry and the translators *)

Lemma rebuilt_eq E languages self :
  rebuilt E languages self
  = {| domain := domain self;
       translations :=
         match fst (load_prefix E (_find_catalogs E languages (domain self))) with
         | [] => translations self
         | _ :: _ =>
             chain_of (fst (load_prefix E (_find_catalogs E languages (domain self))))
         end |}.
Proof. unfold rebuilt. by rewrite domain_set_languages_result. Qed.

Lemma rebuilt_domain E languages self :
  domain (rebuilt E languages self) = domain self.
Proof. by rewrite rebuilt_eq. Qed.

Lemma rebuilt_is_Some E languages self :
  is_Some (translations (rebuilt E languages self)) <->
  is_Some (translations self)
  \/ fst (load_prefix E (_find_catalogs E languages (domain self))) <> [].
Proof.
  rewrite rebuilt_eq. cbn [translations].
  destruct (fst (load_prefix E _)) as [|e es]; simpl.
  - split; [by left | by intros [?|?]].
  - split; [by right | by eexists].
Qed.

Lemma rebuilt_idempotent E languages self :
  rebuilt E languages (rebuilt E languages self) = rebuilt E languages self.
Proof.
  rewrite (rebuilt_eq E languages (rebuilt E languages self)).
  rewrite rebuilt_domain, (rebuilt_eq E languages self). cbn [translations].
  by destruct (fst (load_prefix E _)).
Qed.

(** A rebuild that returns has decoded every located catalogue. *)
Lemma rebuilt_complete E languages self :
  snd (DomainTranslations.set_languages E languages self) = Ok tt ->
  load_prefix E (_find_catalogs E languages (domain self))
  = (fst (load_prefix E (_find_catalogs E languages (domain self))), true).
Proof.
  rewrite domain_set_languages_result. cbn [snd].
  destruct (load_prefix E _) as [es [|]]; [done|discriminate].
Qed.

Lemma complete_chain_not_empty E languages d :
  In "C" (_expand_lang E "C") -> In "C" languages ->
  snd (load_prefix E (_find_catalogs E languages d)) = true ->
  fst (load_prefix E (_find_catalogs E languages d)) <> [].
Proof.
  intros HC HIn Hcomplete Hnil.
  pose proof (load_prefix_length E (_find_catalogs E languages d)) as Hlen.
  rewrite Hcomplete, Hnil in Hlen. simpl in Hlen.
  symmetry in Hlen. apply length_zero_iff_nil in Hlen.
  by apply (find_in_languages_with_C E (d +:+ ".mo") languages HC HIn).
Qed.

(** Every instance is left alone or rebuilt by the update loop, however
    the loop ends. *)
Lemma update_domains_lookup E languages values objs :
  forall a self, objs !! a = Some self ->
    (fst (update_domains E languages values objs)) !! a = Some self
    \/ (fst (update_domains E languages values objs)) !! a
       = Some (rebuilt E languages self).
Proof.
  revert objs.
  induction values as [|a0 values IH]; intros objs a self Hself; [by left|].
  cbn [update_domains].
  destruct (objs !! a0) as [self0|] eqn:H0; [|by apply IH].
  destruct (DomainTranslations.set_languages E languages self0) as [self0' r] eqn:Hset.
  assert (self0' = rebuilt E languages self0) as -> by (unfold rebuilt; by rewrite Hset).
  assert ((<[a0:=rebuilt E languages self0]> objs) !! a
          = Some (if decide (a = a0) then rebuilt E languages self else self))
    as Hnew.
  { destruct (decide (a = a0)) as [->|Hne].
    - rewrite list_lookup_insert_eq; [congruence|]. by eapply lookup_lt_Some.
    - by rewrite list_lookup_insert_ne. }
  destruct r as [[]|e]; cbn [fst].
  - destruct (IH _ _ _ Hnew) as [H|H]; rewrite H;
      destruct (decide (a = a0)); rewrite ?rebuilt_idempotent; auto.
  - rewrite Hnew. destruct (decide (a = a0)); auto.
Qed.

(** When the update loop returns, every instance it visited has been
    rebuilt, and its rebuild returned. *)
Lemma update_domains_ok E languages values objs objs' :
  update_domains E languages values objs = (objs', Ok tt) ->
  forall a self, In a values -> objs !! a = Some self ->
    objs' !! a = Some (rebuilt E languages self)
    /\ snd (DomainTranslations.set_languages E languages self) = Ok tt.
Proof.
  revert objs.
  induction values as [|a0 values IH]; intros objs Hupd a self HIn Hself; [done|].
  cbn [update_domains] in Hupd.
  destruct (objs !! a0) as [self0|] eqn:H0.
  - destruct (DomainTranslations.set_languages E languages self0) as [self0' r] eqn:Hset.
    destruct r as [[]|e]; [|discriminate].
    assert (self0' = rebuilt E languages self0) as -> by (unfold rebuilt; by rewrite Hset).
    destruct (decide (a = a0)) as [->|Hne].
    + assert (self0 = self) as -> by congruence.
      split; [|by rewrite Hset].
      assert ((<[a0:=rebuilt E languages self]> objs) !! a0
              = Some (rebuilt E languages self)) as Hnew.
      { rewrite list_lookup_insert_eq; [done|]. by eapply lookup_lt_Some. }
      pose proof (update_domains_lookup E languages values _ _ _ Hnew) as Hl.
      rewrite Hupd in Hl. cbn [fst] in Hl. rewrite rebuilt_idempotent in Hl.
      by destruct Hl.
    + destruct HIn as [->|HIn]; [done|].
      eapply IH; [exact Hupd|exact HIn|]. by rewrite list_lookup_insert_ne.
  - destruct HIn as [->|HIn]; [congruence|]. by eapply IH.
Qed.

Lemma dict_get_In d key a : dict_get d key = Some a -> In (key, a) d.
Proof.
  induction d as [|[k v] d IH]; simpl; [done|].
  destruct (String.eqb k key) eqn:Hk.
  - apply String.eqb_eq in Hk. intros [= ->]. left. by subst.
  - intros H. right. by apply IH.
Qed.

Lemma wf_initial : wf initial_state.
Proof. split; [by left | intros d a []]. Qed.

Lemma wf_set_languages E languages st :
  wf st -> wf (fst (set_languages E languages st)).
Proof.
  intros [_ Hreg]. split.
  - rewrite set_languages_languages. apply include_C_In.
  - rewrite set_languages_registry. intros d a HIn.
    destruct (Hreg d a HIn) as (self & Hself & Hd & Hsome).
    unfold set_languages.
    pose proof (update_domains_lookup E
                  (include_C (requested_languages E languages))
                  (map snd (_domain_translations st)) (objects st) a self Hself) as Hl.
    destruct (update_domains _ _ _ _) as [objs r]. cbn [fst objects] in *.
    destruct Hl as [Hl|Hl]; eexists; (split; [exact Hl|]).
    + done.
    + rewrite rebuilt_domain. split; [done|]. apply rebuilt_is_Some. by left.
Qed.

(** A new instance has its chain set as soon as its constructor returns. *)
Lemma init_is_Some E languages d self :
  In "C" (_expand_lang E "C") -> In "C" languages ->
  DomainTranslations.__init__ E languages d = Ok self ->
  domain self = d /\ is_Some (translations self).
Proof.
  intros HC HIn. unfold DomainTranslations.__init__.
  destruct (DomainTranslations.set_languages E languages _) as [self' r] eqn:Hset.
  destruct r as [[]|e]; [|discriminate]. intros [= ->].
  assert (self = rebuilt E languages {| domain := d; translations := None |}) as ->
    by (unfold rebuilt; by rewrite Hset).
  split; [apply rebuilt_domain|].
  apply rebuilt_is_Some. right. cbn [domain].
  apply complete_chain_not_empty; [done..|].
  pose proof (rebuilt_complete E languages {| domain := d; translations := None |})
    as Hc.
  rewrite Hset in Hc. cbn [snd domain] in Hc. by rewrite Hc.
Qed.

Lemma wf_domain_translator E d plural context st :
  In "C" (_expand_lang E "C") ->
  wf st -> wf (fst (domain_translator E d plural context st)).
Proof.
  intros HC [HIn Hreg]. unfold domain_translator.
  destruct (dict_get _ d) as [a|]; [done|].
  destruct (DomainTranslations.__init__ E (_languages st) d) as [self|e] eqn:Hinit;
    [|done].
  destruct (init_is_Some E _ d self HC HIn Hinit) as [Hd Hsome].
  split; [done|]. cbn [fst _domain_translations objects].
  intros d' a' HIn'. apply in_app_or in HIn' as [HIn'|[[= <- <-]|[]]].
  - destruct (Hreg d' a' HIn') as (self' & Hself' & Hrest).
    exists self'. split; [|done]. by apply lookup_app_l_Some.
  - exists self. split; [|done].
    by rewrite lookup_app_r, Nat.sub_diag.
Qed.

Lemma registry_domain_translator E d plural context st d' a' :
  In (d', a') (_domain_translations st) ->
  In (d', a') (_domain_translations (fst (domain_translator E d plural context st))).
Proof.
  intros HIn. unfold domain_translator.
  destruct (dict_get _ d); [done|].
  destruct (DomainTranslations.__init__ _ _ _); [|done].
  cbn [fst _domain_translations]. apply in_or_app. by left.
Qed.

(** The translator returned for a domain is bound to the instance that
    the registry holds for that domain. *)
Lemma domain_translator_registered E d plural context st st1 f :
  domain_translator E d plural context st = (st1, Ok f) ->
  In (d, im_self f) (_domain_translations st1).
Proof.
  unfold domain_translator.
  destruct (dict_get _ d) as [a|] eqn:Hget.
  - intros [= <- <-]. by apply dict_get_In.
  - destruct (DomainTranslations.__init__ _ _ _); [|discriminate].
    intros [= <- <-]. cbn [_domain_translations im_self].
    apply in_or_app. right. by left.
Qed.

Lemma wf_exec E st c : In "C" (_expand_lang E "C") -> wf st -> wf (exec E st c).
Proof.
  intros HC Hwf. destruct c; simpl.
  - by apply wf_set_languages.
  - by apply wf_domain_translator.
Qed.

Lemma registry_exec E st c d a :
  In (d, a) (_domain_translations st) ->
  In (d, a) (_domain_translations (exec E st c)).
Proof.
  intros HIn. destruct c; simpl.
  - by rewrite set_languages_registry.
  - by apply registry_domain_translator.
Qed.

Lemma wf_run E calls st : In "C" (_expand_lang E "C") -> wf st -> wf (run E calls st).
Proof.
  intros HC. revert st.
  induction calls as [|c calls IH]; intros st Hwf; [done|].
  apply IH. by apply wf_exec.
Qed.

Lemma registry_run E calls st d a :
  In (d, a) (_domain_translations st) ->
  In (d, a) (_domain_translations (run E calls st)).
Proof.
  revert st. induction calls as [|c calls IH]; intros st HIn; [done|].
  apply IH. by apply registry_exec.
Qed.

(** What [set_languages] leaves at every registered address when it
    returns. *)
Lemma set_languages_rebuilt E languages st st2 d a :
  In "C" (_expand_lang E "C") -> wf st ->
  set_languages E languages st = (st2, Ok tt) ->
  In (d, a) (_domain_translations st) ->
  exists entries,
    load_prefix E (_find_catalogs E (_languages st2) d) = (entries, true)
    /\ objects st2 !! a = Some {| domain := d; translations := chain_of entries |}
    /\ entries <> [].
Proof.
  intros HC [_ Hreg] Hset HIn.
  destruct (Hreg d a HIn) as (self & Hself & Hd & _).
  unfold set_languages in Hset.
  destruct (update_domains _ _ _ _) as [objs r] eqn:Hupd.
  injection Hset as <- ->. cbn [_languages objects].
  assert (In a (map snd (_domain_translations st))) as Ha.
  { apply in_map_iff. by exists (d, a). }
  destruct (update_domains_ok _ _ _ _ _ Hupd a self Ha Hself) as [Hobj Hok].
  apply rebuilt_complete in Hok. rewrite Hd in Hok.
  set (languages' := include_C (requested_languages E languages)) in *.
  assert (fst (load_prefix E (_find_catalogs E languages' d)) <> []) as Hne.
  { apply complete_chain_not_empty; [done|apply include_C_In|by rewrite Hok]. }
  exists (fst (load_prefix E (_find_catalogs E languages' d))).
  split; [done|]. split; [|done].
  rewrite Hobj, rebuilt_eq, Hd.
  by destruct (fst (load_prefix E (_find_catalogs E languages' d))).
Qed.





(** ** The scenarios of the test-suite *)

(** [test_support_singular_translation] *)
Example singular_translation_scenario :
  let msg := "A simple test message" in
  let st1 := fst (domain_translator Sample.env Sample.test_domain false false
                    initial_state) in
  let f := {| im_self := 0; im_func := m_gettext |} in
  let st2 := fst (set_languages Sample.env ["en"] st1) in
  let st3 := fst (set_languages Sample.env ["de"] st2) in
  snd (domain_translator Sample.env Sample.test_domain false false initial_state)
  = Ok f
  /\ call st1 f (args_message msg) = Ok "A simple test message"
  /\ call st2 f (args_message msg) = Ok "A simple test message"
  /\ call st3 f (args_message msg) = Ok "Eine einfache Testmeldung".
Proof. repeat split. Qed.

(** [test_support_plural_translation] *)
Example plural_translation_scenario :
  let msg := "{count:d} plugin was found" in
  let msgn := "{count:d} plugins were found" in
  let st1 := fst (domain_translator Sample.env Sample.test_domain true false
                    initial_state) in
  let f := {| im_self := 0; im_func := m_ngettext |} in
  let st2 := fst (set_languages Sample.env ["de"] st1) in
  let st3 := fst (set_languages Sample.env ["en"] st2) in
  call st1 f (args_plural msg msgn 1) = Ok msg
  /\ call st1 f (args_plural msg msgn 10) = Ok msgn
  /\ call st2 f (args_plural msg msgn 1) = Ok "{count:d} Plugin wurde gefunden"
  /\ call st2 f (args_plural msg msgn 10) = Ok "{count:d} Plugins wurden gefunden"
  /\ call st3 f (args_plural msg msgn 1) = Ok msg
  /\ call st3 f (args_plural msg msgn 10) = Ok msgn.
Proof. repeat split. Qed.

(** * Further properties of the module *)

(** ** The catalogue search *)

Lemma in_recorded_for E mo_fn specs path :
  In (Some path) (recorded_for E mo_fn specs) <->
  exists spec, In spec (before_C specs) /\ catalog_for E mo_fn spec = Some path.
Proof.
  unfold recorded_for. rewrite in_app_iff. split.
  - intros [HIn|HIn].
    + apply in_map_iff in HIn as (p & [= ->] & HIn).
      apply list_elem_of_In, list_elem_of_omap in HIn as (spec & HIn & Hspec).
      exists spec. split; [by apply list_elem_of_In|done].
    + destruct (reaches_C specs); [|done]. by destruct HIn as [|[]].
  - intros (spec & HIn & Hspec). left. apply in_map.
    apply list_elem_of_In, list_elem_of_omap. exists spec.
    split; [by apply list_elem_of_In|done].
Qed.

Lemma catalog_for_Some E mo_fn spec path :
  catalog_for E mo_fn spec = Some path <->
  exists lc_messages,
    files E ("openstb.locale." +:+ spec +:+ ".LC_MESSAGES") = Some lc_messages
    /\ path = joinpath E lc_messages mo_fn
    /\ is_file E path = true.
Proof.
  unfold catalog_for. split.
  - destruct (files E _) as [lc_messages|]; [|done].
    destruct (is_file E _) eqn:Hfile; [|done].
    intros [= <-]. by exists lc_messages.
  - intros (lc_messages & -> & -> & Hfile). by rewrite Hfile.
Qed.

(** X1.  The search records a path exactly when it is an existing file
    [<domain>.mo] in the package of a variant of one of the languages, that
    variant coming before any "C" among the variants of its language.  So
    it never records a path that is not a file, and never misses one. *)
Theorem find_catalogs_records_exactly_the_files E languages domain path :
  In (Some path) (_find_catalogs E languages domain) <->
  exists language spec lc_messages,
    In language languages
    /\ In spec (before_C (_expand_lang E language))
    /\ files E ("openstb.locale." +:+ spec +:+ ".LC_MESSAGES") = Some lc_messages
    /\ path = joinpath E lc_messages (domain +:+ ".mo")
    /\ is_file E path = true.
Proof.
  induction languages as [|language languages IH].
  - split; [intros [] | by intros (? & ? & ? & [] & _)].
  - rewrite find_catalogs_cons, in_app_iff, in_recorded_for, IH. split.
    + intros [(spec & HIn & Hspec)|(l & spec & lc & HIn & Hrest)].
      * apply catalog_for_Some in Hspec as (lc & Hspec).
        exists language, spec, lc. split; [by left|done].
      * exists l, spec, lc. split; [by right|done].
    + intros (l & spec & lc & [<-|HIn] & Hspec & Hrest).
      * left. exists spec. split; [done|]. apply catalog_for_Some. by exists lc.
      * right. by exists l, spec, lc.
Qed.

(** X2.  The search keeps nothing from one language to the next: the
    result for a preference list is the results for its parts, one after
    the other.  In particular the catalogues of an earlier language come
    before those of a later one, and a tag listed twice is searched
    twice. *)
Theorem find_catalogs_of_concatenation E languages1 languages2 domain :
  _find_catalogs E (languages1 ++ languages2) domain
  = _find_catalogs E languages1 domain ++ _find_catalogs E languages2 domain.
Proof.
  induction languages1 as [|language languages1 IH]; [done|].
  rewrite <- app_comm_cons, !find_catalogs_cons, IH. by rewrite app_assoc.
Qed.

(** ** Lookups along an assembled chain *)

Lemma gettext_first_translation entries message :
  gettext_from (chain_of entries) message
  = default message
      (first_translation (fun _ => Gettext.KMsg message) entries).
Proof.
  induction entries as [|e entries IH]; [done|].
  cbn [chain_of gettext_from]. rewrite gettext_link.
  destruct e as [|c]; simpl; [done|].
  by destruct (Gettext.catalog_get _ _).
Qed.

Lemma pgettext_first_translation entries context message :
  pgettext_from (chain_of entries) context message
  = default message
      (first_translation
         (fun _ => Gettext.KMsg (Gettext.CONTEXT context message)) entries).
Proof.
  induction entries as [|e entries IH]; [done|].
  cbn [chain_of pgettext_from]. rewrite pgettext_link.
  destruct e as [|c]; simpl; [done|].
  by destruct (Gettext.catalog_get _ _).
Qed.

Lemma ngettext_first_translation entries msgid1 msgid2 n :
  ngettext_from (chain_of entries) msgid1 msgid2 n
  = default (if Z.eqb n 1 then msgid1 else msgid2)
      (first_translation
         (fun c => Gettext.KPlural msgid1 (Gettext.plural c n)) entries).
Proof.
  induction entries as [|e entries IH]; [done|].
  cbn [chain_of ngettext_from]. rewrite ngettext_link.
  destruct e as [|c]; simpl; [done|].
  by destruct (Gettext.catalog_get _ _).
Qed.

Lemma npgettext_first_translation entries context msgid1 msgid2 n :
  npgettext_from (chain_of entries) context msgid1 msgid2 n
  = default (if Z.eqb n 1 then msgid1 else msgid2)
      (first_translation
         (fun c => Gettext.KPlural (Gettext.CONTEXT context msgid1)
                     (Gettext.plural c n)) entries).
Proof.
  induction entries as [|e entries IH]; [done|].
  cbn [chain_of npgettext_from]. rewrite npgettext_link.
  destruct e as [|c]; simpl; [done|].
  by destruct (Gettext.catalog_get _ _).
Qed.

(** The chain a rebuild that returns leaves in the instance, whenever the
    search located anything. *)
Lemma rebuilt_chain E languages self self' :
  DomainTranslations.set_languages E languages self = (self', Ok tt) ->
  _find_catalogs E languages (domain self) <> [] ->
  translations self'
  = chain_of (fst (load_prefix E (_find_catalogs E languages (domain self))))
  /\ length (fst (load_prefix E (_find_catalogs E languages (domain self))))
     = length (_find_catalogs E languages (domain self)).
Proof.
  rewrite domain_set_languages_result. intros Hset Hne.
  pose proof (load_prefix_length E (_find_catalogs E languages (domain self))) as Hlen.
  destruct (snd (load_prefix E _)); [|by injection Hset].
  injection Hset as <-. split; [|done]. cbn [translations].
  destruct (fst (load_prefix E _)) as [|e es] eqn:Hes; [|done].
  simpl in Hlen. symmetry in Hlen. by apply length_zero_iff_nil in Hlen.
Qed.

(** X3.  After a rebuild that returns, the plain and the context lookup
    of a domain answer from the first located catalogue, in the order of
    the search, that holds the message (for the context lookup: the message
    under that context), and return the message itself when none does. *)
Theorem lookup_answers_from_first_catalog
    E languages self self' context message :
  DomainTranslations.set_languages E languages self = (self', Ok tt) ->
  _find_catalogs E languages (domain self) <> [] ->
  let entries := fst (load_prefix E (_find_catalogs E languages (domain self))) in
  DomainTranslations.gettext self' message
  = Ok (default message
          (first_translation (fun _ => Gettext.KMsg message) entries))
  /\ DomainTranslations.pgettext self' context message
     = Ok (default message
             (first_translation
                (fun _ => Gettext.KMsg (Gettext.CONTEXT context message)) entries)).
Proof.
  intros Hset Hne entries.
  destruct (rebuilt_chain E languages self self' Hset Hne) as [Hchain Hlen].
  fold entries in Hchain, Hlen.
  assert (entries <> []) as Hentries.
  { intros Hnil. rewrite Hnil in Hlen. symmetry in Hlen.
    by apply length_zero_iff_nil in Hlen. }
  unfold DomainTranslations.gettext, DomainTranslations.pgettext.
  rewrite Hchain.
  pose proof (gettext_first_translation entries message) as Hg.
  pose proof (pgettext_first_translation entries context message) as Hp.
  destruct entries as [|e es]; [done|].
  cbn [chain_of gettext_from pgettext_from] in *. by rewrite Hg, Hp.
Qed.

Lemma lookup_answers_from_first_catalog_witness :
  let self := {| domain := Sample.test_domain; translations := None |} in
  let self' := fst (DomainTranslations.set_languages Sample.env
                      ["de_AT.UTF-8"; "C"] self) in
  let entries := fst (load_prefix Sample.env
                        (_find_catalogs Sample.env ["de_AT.UTF-8"; "C"]
                           (domain self))) in
  DomainTranslations.gettext self' "A simple test message"
  = Ok (default "A simple test message"
          (first_translation (fun _ => Gettext.KMsg "A simple test message") entries))
  /\ DomainTranslations.pgettext self' "menu" "A simple test message"
     = Ok (default "A simple test message"
             (first_translation
                (fun _ => Gettext.KMsg
                            (Gettext.CONTEXT "menu" "A simple test message"))
                entries)).
Proof.
  intros self self' entries.
  apply (lookup_answers_from_first_catalog Sample.env ["de_AT.UTF-8"; "C"]
           self self' "menu" "A simple test message").
  - reflexivity.
  - discriminate.
Defined.



Example austrian_preference_falls_back_to_german :
  let self' := fst (DomainTranslations.set_languages Sample.env
                      ["de_AT.UTF-8"; "C"]
                      {| domain := Sample.test_domain; translations := None |}) in
  DomainTranslations.gettext self' "January" = Ok "Jaenner"
  /\ DomainTranslations.gettext self' "A simple test message"
     = Ok "Eine einfache Testmeldung"
  /\ DomainTranslations.gettext self' "Unknown" = Ok "Unknown".
Proof. repeat split. Qed.

(** ** Lookups without a catalogue *)

Lemma first_translation_identities key_of k :
  first_translation key_of (repeat Identity k) = None.
Proof. induction k as [|k IH]; [done|apply IH]. Qed.

(** X5.  When no catalogue of the domain is installed for any variant of
    the active languages, the plural lookup returns the singular for
    [n = 1] and the plural otherwise, and both context lookups ignore the
    context: they return what the lookups without context return. *)
Theorem lookups_without_catalogs
    E languages self context singular plural n message :
  In "C" (_expand_lang E "C") ->
  In "C" languages ->
  (forall language spec, In language languages ->
     In spec (_expand_lang E language) ->
     catalog_for E (domain self +:+ ".mo") spec = None) ->
  exists self',
    DomainTranslations.set_languages E languages self = (self', Ok tt)
    /\ DomainTranslations.ngettext self' singular plural n
       = Ok (if Z.eqb n 1 then singular else plural)
    /\ DomainTranslations.pgettext self' context message = Ok message
    /\ DomainTranslations.npgettext self' context singular plural n
       = Ok (if Z.eqb n 1 then singular else plural).
Proof.
  intros HC HIn Hnone.
  destruct (find_catalogs_no_catalog E languages (domain self) Hnone) as [k Hk].
  pose proof (find_in_languages_with_C E (domain self +:+ ".mo") languages HC HIn)
    as Hne.
  fold (_find_catalogs E languages (domain self)) in Hne.
  destruct k as [|k]; [by rewrite Hk in Hne|].
  eexists. rewrite domain_set_languages_result, Hk, load_prefix_identities.
  split; [reflexivity|].
  unfold DomainTranslations.ngettext, DomainTranslations.pgettext,
    DomainTranslations.npgettext.
  cbn [translations fst].
  pose proof (ngettext_first_translation (repeat Identity (S k)) singular plural n)
    as H2.
  pose proof (pgettext_first_translation (repeat Identity (S k)) context message)
    as H3.
  pose proof (npgettext_first_translation (repeat Identity (S k)) context
                singular plural n) as H4.
  rewrite first_translation_identities in H2, H3, H4.
  cbn [repeat chain_of ngettext_from pgettext_from npgettext_from default
         from_option id] in *.
  by rewrite H2, H3, H4.
Qed.

Lemma lookups_without_catalogs_witness :
  exists self',
    DomainTranslations.set_languages Sample.env ["en"; "C"]
      {| domain := Sample.test_domain;
         translations := chain_of [Loaded Sample.de_catalog] |} = (self', Ok tt)
    /\ DomainTranslations.ngettext self' "{count:d} plugin was found"
         "{count:d} plugins were found" 10
       = Ok (if Z.eqb 10 1 then "{count:d} plugin was found"
             else "{count:d} plugins were found")
    /\ DomainTranslations.pgettext self' "menu" "Open" = Ok "Open"
    /\ DomainTranslations.npgettext self' "menu" "{count:d} plugin was found"
         "{count:d} plugins were found" 10
       = Ok (if Z.eqb 10 1 then "{count:d} plugin was found"
             else "{count:d} plugins were found").
Proof.
  apply (lookups_without_catalogs Sample.env ["en"; "C"]
           {| domain := Sample.test_domain;
              translations := chain_of [Loaded Sample.de_catalog] |}).
  - simpl. tauto.
  - simpl. tauto.
  - intros language spec Hl Hs. simpl in Hl.
    destruct Hl as [<-|[<-|[]]]; simpl in Hs;
      repeat (destruct Hs as [<-|Hs]; [reflexivity|]); destruct Hs.
Defined.

(** X6.  Before [set_languages] is ever called the preference is "C":
    the first translator requested, for whatever domain and flags, is
    obtained without reading any catalogue, and called with arguments of
    its signature it returns them untranslated. *)
Theorem first_translator_is_untranslated
    E d (plural context : bool) args :
  _expand_lang E "C" = ["C"] ->
  let f := {| im_self := 0;
              im_func := if context
                         then (if plural then m_npgettext else m_pgettext)
                         else (if plural then m_ngettext else m_gettext) |} in
  let st1 := {| _languages := ["C"];
                objects := [ {| domain := d; translations := chain_of [Identity] |} ];
                _domain_translations := [(d, 0)] |} in
  domain_translator E d plural context initial_state = (st1, Ok f)
  /\ (signature (im_func f) args = true -> call st1 f args = Ok (untranslated args)).
Proof.
  intros HC f st1.
  assert (_find_catalogs E ["C"] d = [None]) as Hfind.
  { rewrite find_catalogs_cons, HC. reflexivity. }
  split.
  - unfold domain_translator, DomainTranslations.__init__. cbn [dict_get initial_state
      _domain_translations _languages objects].
    rewrite domain_set_languages_result. cbn [domain]. rewrite Hfind. reflexivity.
  - subst f st1. destruct context, plural, args; simpl; (discriminate || done).
Qed.

Lemma first_translator_is_untranslated_witness :
  let f := {| im_self := 0; im_func := m_ngettext |} in
  let st1 := {| _languages := ["C"];
                objects := [ {| domain := "openstb.plugins";
                                translations := chain_of [Identity] |} ];
                _domain_translations := [("openstb.plugins", 0)] |} in
  domain_translator Sample.env "openstb.plugins" true false initial_state
  = (st1, Ok f)
  /\ (signature (im_func f) (args_plural "one" "many" 3) = true ->
      call st1 f (args_plural "one" "many" 3)
      = Ok (untranslated (args_plural "one" "many" 3))).
Proof.
  apply (first_translator_is_untranslated Sample.env "openstb.plugins" true false
           (args_plural "one" "many" 3)).
  reflexivity.
Defined.

(** ** Requests for translators *)

Lemma dict_get_app d key a :
  dict_get d key = None -> dict_get (d ++ [(key, a)]) key = Some a.
Proof.
  induction d as [|[k v] d IH]; simpl.
  - by rewrite String.eqb_refl.
  - destruct (String.eqb k key); [done|apply IH].
Qed.

Lemma dict_get_None d key : dict_get d key = None -> ~ In key (map fst d).
Proof.
  induction d as [|[k v] d IH]; simpl; [tauto|].
  destruct (String.eqb k key) eqn:Hk; [done|].
  apply String.eqb_neq in Hk. intros Hd [?|?]; [done|by apply IH].
Qed.

Lemma domain_set_languages_pair E languages self :
  DomainTranslations.set_languages E languages self
  = (rebuilt E languages self,
     if snd (load_prefix E (_find_catalogs E languages (domain self)))
     then Ok tt else Raise LoadError).
Proof. by rewrite rebuilt_eq, domain_set_languages_result. Qed.

(** X7.  A domain is loaded once: after a request for a domain has
    returned, any further request for it, with whatever flags, returns a
    translator bound to the same instance and changes nothing in the
    state. *)
Theorem domain_translator_reuses_instance
    E d plural context st st1 f plural' context' :
  domain_translator E d plural context st = (st1, Ok f) ->
  exists f',
    domain_translator E d plural' context' st1 = (st1, Ok f')
    /\ im_self f' = im_self f.
Proof.
  unfold domain_translator at 1.
  destruct (dict_get (_domain_translations st) d) as [a|] eqn:Hget.
  - intros [= <- <-]. unfold domain_translator. rewrite Hget. by eexists.
  - destruct (DomainTranslations.__init__ _ _ _) as [self|]; [|discriminate].
    intros [= <- <-]. unfold domain_translator. cbn [_domain_translations].
    rewrite (dict_get_app _ _ _ Hget). by eexists.
Qed.

Lemma domain_translator_reuses_instance_witness :
  let st1 := fst (domain_translator Sample.env Sample.test_domain false false
                    initial_state) in
  exists f',
    domain_translator Sample.env Sample.test_domain true true st1 = (st1, Ok f')
    /\ im_self f' = im_self {| im_self := 0; im_func := m_gettext |}.
Proof.
  intros st1.
  apply (domain_translator_reuses_instance Sample.env Sample.test_domain
           false false initial_state st1 {| im_self := 0; im_func := m_gettext |}).
  reflexivity.
Defined.

(** X8.  A request that raises does so because a located catalogue of a
    domain not yet registered could not be loaded; it registers nothing and
    leaves the state as it was, so the next request for the domain tries
    again. *)
Theorem failed_request_registers_nothing E d plural context st st' e :
  domain_translator E d plural context st = (st', Raise e) ->
  st' = st
  /\ e = LoadError
  /\ dict_get (_domain_translations st) d = None
  /\ snd (load_prefix E (_find_catalogs E (_languages st) d)) = false.
Proof.
  unfold domain_translator, DomainTranslations.__init__.
  destruct (dict_get _ d); [discriminate|].
  rewrite domain_set_languages_pair. cbn [domain].
  destruct (snd (load_prefix E _)); [discriminate|].
  by intros [= <- <-].
Qed.

Lemma failed_request_registers_nothing_witness :
  let st := fst (set_languages Sample.env ["fr"] initial_state) in
  st = st
  /\ LoadError = LoadError
  /\ dict_get (_domain_translations st) Sample.test_domain = None
  /\ snd (load_prefix Sample.env
            (_find_catalogs Sample.env (_languages st) Sample.test_domain)) = false.
Proof.
  intros st.
  apply (failed_request_registers_nothing Sample.env Sample.test_domain
           false false st st LoadError).
  reflexivity.
Defined.

(** X9.  A request leaves the preference and every existing instance
    alone: whatever it returns or raises, a translator obtained earlier
    answers afterwards as it did before. *)
Theorem domain_translator_keeps_existing E d plural context st st' r f args :
  domain_translator E d plural context st = (st', r) ->
  im_self f < length (objects st) ->
  _languages st' = _languages st
  /\ call st' f args = call st f args.
Proof.
  unfold domain_translator.
  destruct (dict_get _ d); [by intros [= <- <-]|].
  destruct (DomainTranslations.__init__ _ _ _) as [self|]; [|by intros [= <- <-]].
  intros [= <- <-] Hlt. split; [done|].
  unfold call. cbn [objects]. by rewrite lookup_app_l.
Qed.

Lemma domain_translator_keeps_existing_witness :
  let st := fst (set_languages Sample.env ["de"]
                   (fst (domain_translator Sample.env Sample.test_domain false false
                           initial_state))) in
  let st' := fst (domain_translator Sample.env "openstb.plugins" true false st) in
  let f := {| im_self := 0; im_func := m_gettext |} in
  _languages st' = _languages st
  /\ call st' f (args_message "A simple test message")
     = call st f (args_message "A simple test message").
Proof.
  intros st st' f.
  apply (domain_translator_keeps_existing Sample.env "openstb.plugins" true false
           st st' (Ok {| im_self := 1; im_func := m_ngettext |})).
  - reflexivity.
  - simpl. lia.
Defined.

(** ** The update loop over the registered instances *)

Lemma update_domains_seq E languages pre objs :
  update_domains E languages (seq (length pre) (length objs)) (pre ++ objs)
  = (pre ++ fst (rebuild_each E languages objs),
     snd (rebuild_each E languages objs)).
Proof.
  revert pre. induction objs as [|self objs IH]; intros pre; [done|].
  cbn [length seq update_domains rebuild_each].
  rewrite list_lookup_middle by done.
  destruct (DomainTranslations.set_languages E languages self) as [self' [[]|e]];
    rewrite insert_app_r_alt, Nat.sub_diag by done; cbn [insert list_insert].
  - specialize (IH (pre ++ [self'])).
    rewrite length_app, Nat.add_1_r, <- app_assoc in IH. cbn [app] in IH.
    rewrite IH. destruct (rebuild_each E languages objs) as [objs' r].
    cbn [fst snd]. by rewrite <- app_assoc.
  - done.
Qed.

Lemma rebuild_each_domains E languages objs :
  map domain (fst (rebuild_each E languages objs)) = map domain objs.
Proof.
  induction objs as [|self objs IH]; [done|].
  cbn [rebuild_each]. rewrite domain_set_languages_pair.
  destruct (snd (load_prefix E _)).
  - destruct (rebuild_each E languages objs) as [objs' r]. cbn [fst map] in *.
    by rewrite rebuilt_domain, IH.
  - cbn [fst map]. by rewrite rebuilt_domain.
Qed.

Lemma rebuild_each_length E languages objs :
  length (fst (rebuild_each E languages objs)) = length objs.
Proof.
  rewrite <- (length_map domain), rebuild_each_domains. apply length_map.
Qed.

Lemma set_languages_rebuild_each E languages st :
  registry_ok st ->
  set_languages E languages st
  = ({| _languages := include_C (requested_languages E languages);
        objects := fst (rebuild_each E
                          (include_C (requested_languages E languages))
                          (objects st));
        _domain_translations := _domain_translations st |},
     snd (rebuild_each E (include_C (requested_languages E languages))
            (objects st))).
Proof.
  intros (_ & Haddr & _). unfold set_languages. rewrite Haddr.
  by rewrite (update_domains_seq E _ [] (objects st)).
Qed.

Lemma registry_ok_initial : registry_ok initial_state.
Proof. repeat split. constructor. Qed.

Lemma registry_ok_set_languages E languages st :
  registry_ok st -> registry_ok (fst (set_languages E languages st)).
Proof.
  intros Hok. rewrite set_languages_rebuild_each by done.
  destruct Hok as (Hkeys & Haddr & Hdom). repeat split; cbn [fst objects
    _domain_translations]; [done| |].
  - by rewrite rebuild_each_length.
  - by rewrite rebuild_each_domains.
Qed.

Lemma registry_ok_domain_translator E d plural context st :
  registry_ok st -> registry_ok (fst (domain_translator E d plural context st)).
Proof.
  intros (Hkeys & Haddr & Hdom). unfold domain_translator.
  destruct (dict_get _ d) eqn:Hget; [done|].
  unfold DomainTranslations.__init__. rewrite domain_set_languages_pair.
  destruct (snd (load_prefix E _)); [|done].
  repeat split; cbn [fst objects _domain_translations].
  - rewrite map_app. cbn [map fst]. apply NoDup_app. split; [done|]. split.
    + intros x Hx ->%list_elem_of_singleton.
      apply dict_get_None in Hget. by apply Hget, list_elem_of_In.
    + apply NoDup_singleton.
  - rewrite map_app, length_app, Haddr. cbn [map snd length].
    by rewrite Nat.add_1_r, seq_S.
  - rewrite !map_app, Hdom. cbn [map fst]. by rewrite rebuilt_domain.
Qed.

Lemma registry_ok_run E calls st : registry_ok st -> registry_ok (run E calls st).
Proof.
  revert st. induction calls as [|c calls IH]; intros st Hok; [done|].
  apply IH. destruct c; simpl.
  - by apply registry_ok_set_languages.
  - by apply registry_ok_domain_translator.
Qed.

Lemma NoDup_map_inj {A B : Type} (g : A -> B) (l : list A) x y :
  NoDup (map g l) -> In x l -> In y l -> g x = g y -> x = y.
Proof.
  induction l as [|z l IH]; [done|]. cbn [map].
  intros [Hz Hl]%NoDup_cons [->|Hx] [->|Hy] Hg; [done| | |by apply IH].
  - destruct Hz. rewrite Hg. by apply list_elem_of_In, in_map.
  - destruct Hz. rewrite <- Hg. by apply list_elem_of_In, in_map.
Qed.

Lemma map_lookup {A B : Type} (g : A -> B) (l : list A) i :
  map g l !! i = g <$> (l !! i).
Proof.
  revert i. induction l as [|z l IH]; intros [|i]; try done. apply IH.
Qed.

Lemma registry_ok_lookup st d a :
  registry_ok st -> In (d, a) (_domain_translations st) ->
  exists self, objects st !! a = Some self /\ domain self = d.
Proof.
  intros (_ & Haddr & Hdom) HIn.
  apply list_elem_of_In, list_elem_of_lookup in HIn as [i Hi].
  assert (map snd (_domain_translations st) !! i = Some a) as Ha
    by (by rewrite map_lookup, Hi).
  rewrite Haddr in Ha. apply lookup_seq in Ha as [-> _].
  assert (map domain (objects st) !! i = Some d) as Hd
    by (by rewrite Hdom, map_lookup, Hi).
  rewrite map_lookup in Hd. simpl.
  destruct (objects st !! i) as [self|]; [|done].
  exists self. split; [done|]. by injection Hd.
Qed.

(** X10.  In every state reached from the initial one, whatever calls
    returned or raised on the way: each registered domain is bound to an
    instance that carries its name, no domain is registered twice, two
    domains never share an instance, and the store holds no instance
    besides the registered ones. *)
Theorem one_instance_per_domain E calls :
  let st := run E calls initial_state in
  length (objects st) = length (_domain_translations st)
  /\ (forall d a, In (d, a) (_domain_translations st) ->
        exists self, objects st !! a = Some self /\ domain self = d)
  /\ (forall d1 a1 d2 a2,
        In (d1, a1) (_domain_translations st) ->
        In (d2, a2) (_domain_translations st) ->
        (d1 = d2 <-> a1 = a2)).
Proof.
  intros st.
  assert (registry_ok st) as Hok by apply registry_ok_run, registry_ok_initial.
  split; [|split].
  - destruct Hok as (_ & _ & Hdom).
    by rewrite <- (length_map domain), Hdom, length_map.
  - intros d a. by apply registry_ok_lookup.
  - destruct Hok as (Hkeys & Haddr & _). intros d1 a1 d2 a2 H1 H2. split.
    + intros Hd. by injection (NoDup_map_inj fst _ _ _ Hkeys H1 H2 Hd).
    + intros Ha.
      assert (NoDup (map snd (_domain_translations st))) as Hnd
        by (rewrite Haddr; apply NoDup_seq).
      by injection (NoDup_map_inj snd _ _ _ Hnd H1 H2 Ha).
Qed.

Lemma domain_set_languages_rebuilt E languages self :
  DomainTranslations.set_languages E languages (rebuilt E languages self)
  = (rebuilt E languages self,
     snd (DomainTranslations.set_languages E languages self)).
Proof.
  by rewrite !domain_set_languages_pair, rebuilt_idempotent, rebuilt_domain.
Qed.

Lemma rebuild_each_idempotent E languages objs :
  rebuild_each E languages (fst (rebuild_each E languages objs))
  = rebuild_each E languages objs.
Proof.
  induction objs as [|self objs IH]; [done|].
  cbn [rebuild_each].
  pose proof (domain_set_languages_rebuilt E languages self) as Hself.
  destruct (DomainTranslations.set_languages E languages self) as [self' r] eqn:Hset.
  assert (self' = rebuilt E languages self) as ->
    by (unfold rebuilt; by rewrite Hset).
  cbn [snd] in Hself. destruct r as [[]|e].
  - destruct (rebuild_each E languages objs) as [objs' r'].
    cbn [fst rebuild_each] in *. by rewrite Hself, IH.
  - cbn [fst rebuild_each]. by rewrite Hself.
Qed.

(** X11.  Calling [set_languages] twice in a row with the same arguments
    is the same as calling it once: the second call returns or raises as
    the first did and leaves the state the first one left. *)
Theorem set_languages_twice E calls languages :
  let st := run E calls initial_state in
  set_languages E languages (fst (set_languages E languages st))
  = set_languages E languages st.
Proof.
  intros st.
  assert (registry_ok st) as Hok by apply registry_ok_run, registry_ok_initial.
  rewrite (set_languages_rebuild_each E languages _
             (registry_ok_set_languages E languages st Hok)).
  rewrite (set_languages_rebuild_each E languages st Hok).
  cbn [fst objects _domain_translations]. by rewrite rebuild_each_idempotent.
Qed.

Lemma rebuilt_by_domain E languages self1 self2 :
  In "C" (_expand_lang E "C") -> In "C" languages ->
  domain self1 = domain self2 ->
  snd (load_prefix E (_find_catalogs E languages (domain self1))) = true ->
  rebuilt E languages self1 = rebuilt E languages self2.
Proof.
  intros HC HIn Hd Hcomplete.
  pose proof (complete_chain_not_empty E languages _ HC HIn Hcomplete) as Hne.
  rewrite !rebuilt_eq, <- Hd.
  by destruct (fst (load_prefix E _)).
Qed.

Lemma rebuild_each_by_domain E languages objs1 :
  In "C" (_expand_lang E "C") -> In "C" languages ->
  forall objs2 objs',
    map domain objs1 = map domain objs2 ->
    rebuild_each E languages objs1 = (objs', Ok tt) ->
    rebuild_each E languages objs2 = (objs', Ok tt).
Proof.
  intros HC HIn.
  induction objs1 as [|self1 objs1 IH]; intros [|self2 objs2] objs' Hd;
    try discriminate; [done|].
  cbn [map] in Hd. injection Hd as Hself Hd.
  cbn [rebuild_each]. rewrite !domain_set_languages_pair, <- Hself.
  destruct (snd (load_prefix E _)) eqn:Hcomplete; [|discriminate].
  rewrite <- (rebuilt_by_domain E languages self1 self2) by done.
  destruct (rebuild_each E languages objs1) as [objs1' r] eqn:H1.
  intros [= <- ->]. by rewrite (IH objs2 objs1' Hd).
Qed.

(** X12.  A preference leaves no trace once a later call returns: if
    [set_languages] with new arguments returns after a call with other
    arguments (which may have returned or raised), the state is the one
    the new call alone would have produced. *)
Theorem later_preference_overrides E calls languages1 languages2 st2 :
  In "C" (_expand_lang E "C") ->
  let st := run E calls initial_state in
  set_languages E languages2 (fst (set_languages E languages1 st)) = (st2, Ok tt) ->
  set_languages E languages2 st = (st2, Ok tt).
Proof.
  intros HC st.
  assert (registry_ok st) as Hok by apply registry_ok_run, registry_ok_initial.
  rewrite (set_languages_rebuild_each E languages2 _
             (registry_ok_set_languages E languages1 st Hok)).
  rewrite (set_languages_rebuild_each E languages1 st Hok).
  rewrite (set_languages_rebuild_each E languages2 st Hok).
  cbn [fst objects _domain_translations].
  set (languages' := include_C (requested_languages E languages2)).
  intros [= <- Hr].
  destruct (rebuild_each E languages' (fst (rebuild_each E _ (objects st))))
    as [objs' r] eqn:Hre.
  cbn [snd] in Hr. subst r.
  rewrite (rebuild_each_by_domain E languages' _ HC (include_C_In _)
             (objects st) objs' (rebuild_each_domains E _ _) Hre).
  done.
Qed.

Lemma later_preference_overrides_witness :
  let st := run Sample.env
              [call_domain_translator Sample.test_domain false false] initial_state in
  let st2 := fst (set_languages Sample.env ["de"] st) in
  set_languages Sample.env ["de"] st = (st2, Ok tt).
Proof.
  intros st st2.
  apply (later_preference_overrides Sample.env
           [call_domain_translator Sample.test_domain false false]
           ["de"; "fr"] ["de"] st2).
  - simpl. tauto.
  - reflexivity.
Defined.

Lemma rebuild_each_raise E languages objs objs' e :
  rebuild_each E languages objs = (objs', Raise e) ->
  e = LoadError
  /\ exists before self after,
       objs = before ++ self :: after
       /\ objs' = map (rebuilt E languages) before
                  ++ rebuilt E languages self :: after
       /\ Forall (fun o => snd (load_prefix E
                                  (_find_catalogs E languages (domain o))) = true)
            before
       /\ snd (load_prefix E (_find_catalogs E languages (domain self))) = false.
Proof.
  revert objs'. induction objs as [|self objs IH]; intros objs'; [discriminate|].
  cbn [rebuild_each]. rewrite domain_set_languages_pair.
  destruct (snd (load_prefix E _)) eqn:Hcomplete.
  - destruct (rebuild_each E languages objs) as [objs'' r] eqn:Hre.
    intros [= <- ->].
    destruct (IH objs'' eq_refl)
      as (-> & before & self' & after & -> & -> & Hbefore & Hself').
    split; [done|]. exists (self :: before), self', after.
    split; [done|]. split; [done|]. split; [by constructor|done].
  - intros [= <- <-]. split; [done|]. exists [], self, objs.
    split; [done|]. split; [done|]. split; [constructor|done].
Qed.

Lemma rebuild_each_ok E languages objs :
  snd (rebuild_each E languages objs) = Ok tt <->
  Forall (fun o => snd (load_prefix E
                          (_find_catalogs E languages (domain o))) = true) objs.
Proof.
  induction objs as [|self objs IH]; [done|].
  cbn [rebuild_each]. rewrite domain_set_languages_pair, Forall_cons.
  destruct (snd (load_prefix E _)) eqn:Hcomplete.
  - destruct (rebuild_each E languages objs) as [objs' r]. cbn [snd] in *.
    rewrite IH. tauto.
  - cbn [snd]. split; [discriminate|]. by intros [? _].
Qed.

(** X13.  When [set_languages] raises, it is because a located catalogue
    could not be loaded.  The preference has been changed all the same and
    the registry is as before; the domains registered before the failing
    one have been rebuilt for the new preference, the failing one holds
    what was loaded before the failure, and the domains registered after
    it still hold the chains of the previous preference. *)
Theorem failed_set_languages_stops_at_first_failure E calls languages st' e :
  let st := run E calls initial_state in
  set_languages E languages st = (st', Raise e) ->
  e = LoadError
  /\ _languages st' = include_C (requested_languages E languages)
  /\ _domain_translations st' = _domain_translations st
  /\ exists before self after,
       objects st = before ++ self :: after
       /\ objects st' = map (rebuilt E (_languages st')) before
                        ++ rebuilt E (_languages st') self :: after
       /\ Forall (fun o => snd (load_prefix E
                                  (_find_catalogs E (_languages st') (domain o)))
                           = true) before
       /\ snd (load_prefix E (_find_catalogs E (_languages st') (domain self)))
          = false.
Proof.
  intros st.
  assert (registry_ok st) as Hok by apply registry_ok_run, registry_ok_initial.
  rewrite (set_languages_rebuild_each E languages st Hok).
  destruct (rebuild_each E _ (objects st)) as [objs' r] eqn:Hre.
  cbn [fst snd]. intros [= <- ->]. cbn [_languages objects _domain_translations].
  destruct (rebuild_each_raise _ _ _ _ _ Hre) as [-> Hrest]. by repeat split.
Qed.

Lemma failed_set_languages_stops_at_first_failure_witness :
  let st := run Sample.env
              [call_domain_translator "openstb.plugins" false false;
               call_domain_translator Sample.test_domain false false;
               call_domain_translator "openstb.other" true false] initial_state in
  let st' := fst (set_languages Sample.env ["de"; "fr"] st) in
  LoadError = LoadError
  /\ _languages st' = include_C (requested_languages Sample.env ["de"; "fr"])
  /\ _domain_translations st' = _domain_translations st
  /\ exists before self after,
       objects st = before ++ self :: after
       /\ objects st' = map (rebuilt Sample.env (_languages st')) before
                        ++ rebuilt Sample.env (_languages st') self :: after
       /\ Forall (fun o => snd (load_prefix Sample.env
                                  (_find_catalogs Sample.env (_languages st')
                                     (domain o))) = true) before
       /\ snd (load_prefix Sample.env
                 (_find_catalogs Sample.env (_languages st') (domain self)))
          = false.
Proof.
  intros st st'.
  apply (failed_set_languages_stops_at_first_failure Sample.env
           [call_domain_translator "openstb.plugins" false false;
            call_domain_translator Sample.test_domain false false;
            call_domain_translator "openstb.other" true false]
           ["de"; "fr"] st' LoadError).
  reflexivity.
Defined.

Example stale_chain_after_failed_set_languages :
  let st := run Sample.env
              [call_domain_translator Sample.test_domain false false;
               call_domain_translator "openstb.other" false false] initial_state in
  let st' := fst (set_languages Sample.env ["fr"] st) in
  snd (set_languages Sample.env ["fr"] st) = Raise LoadError
  /\ _languages st' = ["fr"; "C"]
  /\ objects st' = objects st.
Proof. repeat split. Qed.

(** X14.  [set_languages] returns exactly when, for every registered
    domain, each catalogue located for the new preference can be loaded;
    otherwise it raises. *)
Theorem set_languages_returns_iff_all_load E calls languages :
  let st := run E calls initial_state in
  let languages' := include_C (requested_languages E languages) in
  snd (set_languages E languages st) = Ok tt <->
  forall d a, In (d, a) (_domain_translations st) ->
    snd (load_prefix E (_find_catalogs E languages' d)) = true.
Proof.
  intros st languages'.
  assert (registry_ok st) as Hok by apply registry_ok_run, registry_ok_initial.
  rewrite (set_languages_rebuild_each E languages st Hok). cbn [snd].
  fold languages'. rewrite rebuild_each_ok.
  destruct Hok as (_ & _ & Hdom).
  rewrite Forall_forall. split.
  - intros Hall d a HIn.
    assert (In d (map domain (objects st))) as Hd.
    { rewrite Hdom. apply in_map_iff. by exists (d, a). }
    apply in_map_iff in Hd as (self & <- & Hself).
    by apply Hall, list_elem_of_In.
  - intros Hall self Hself%list_elem_of_In.
    assert (In (domain self) (map fst (_domain_translations st))) as Hd.
    { rewrite <- Hdom. by apply in_map. }
    apply in_map_iff in Hd as ([d a] & Hda & HIn). simpl in Hda. subst d.
    by apply (Hall _ a).
Qed.

(** ** The environment value *)

Lemma split_without_separator sep s :
  contains sep s = false -> split sep s = [s].
Proof.
  induction s as [|c s IH]; [done|]. simpl.
  intros [Hc Hs]%orb_false_elim. by rewrite Hc, IH.
Qed.

Lemma split_field sep field rest :
  contains sep field = false ->
  split sep (field +:+ String sep rest) = field :: split sep rest.
Proof.
  induction field as [|c field IH]; simpl.
  - intros _. by rewrite Ascii.eqb_refl.
  - intros [Hc Hs]%orb_false_elim. by rewrite Hc, IH.
Qed.

Lemma split_join sep fields :
  fields <> [] ->
  Forall (fun field => contains sep field = false) fields ->
  split sep (join sep fields) = fields.
Proof.
  intros Hne Hfields. induction Hfields as [|field fields Hfield Hfields IH]; [done|].
  destruct fields as [|field' fields].
  - by apply split_without_separator.
  - change (join sep (field :: field' :: fields))
      with (field +:+ String sep (join sep (field' :: fields))).
    rewrite split_field by done. by rewrite IH.
Qed.

(** X15.  With LANGUAGE set to tags joined by [:], none of them containing
    a [:], a call of [set_languages] without arguments makes exactly these
    tags the preference, in their order (followed by "C" when they lack
    it), whatever the other three variables hold. *)
Theorem language_variable_gives_its_tags E st tags :
  tags <> [] ->
  Forall (fun tag => contains ":" tag = false) tags ->
  truthy (join ":" tags) = true ->
  environ E "LANGUAGE" = Some (join ":" tags) ->
  _languages (fst (set_languages E [] st)) = include_C tags.
Proof.
  intros Hne Htags Htruthy Henv.
  rewrite set_languages_languages. unfold requested_languages.
  cbn [languages_from_environ]. rewrite Henv, Htruthy.
  by rewrite split_join.
Qed.

Lemma language_variable_gives_its_tags_witness :
  let E := {| _expand_lang := Sample.expand;
              files := Sample.packages;
              joinpath := joinpath Sample.env;
              is_file := is_file Sample.env;
              load := Sample.decode;
              environ := fun envname =>
                if String.eqb envname "LANGUAGE" then Some "de_AT.UTF-8:de:en"
                else if String.eqb envname "LANG" then Some "fr" else None |} in
  _languages (fst (set_languages E [] initial_state))
  = include_C ["de_AT.UTF-8"; "de"; "en"].
Proof.
  intros E.
  apply (language_variable_gives_its_tags E initial_state
           ["de_AT.UTF-8"; "de"; "en"]).
  - discriminate.
  - repeat constructor.
  - reflexivity.
  - reflexivity.
Defined.

(** ** Context lookups and catalogues without contexts *)

Lemma contains_separator sep context message :
  contains sep (context +:+ String sep message) = true.
Proof.
  induction context as [|c context IH]; simpl.
  - by rewrite Ascii.eqb_refl.
  - rewrite IH. apply orb_true_r.
Qed.

Lemma catalog_get_key entries key tmsg :
  Gettext.catalog_get entries key = Some tmsg -> In key (map fst entries).
Proof.
  induction entries as [|[k t] entries IH]; simpl; [done|].
  destruct (Gettext.Key_eqb k key) eqn:Hk; [|by right; apply IH].
  intros _. left. destruct k, key; simpl in Hk; try done.
  - apply String.eqb_eq in Hk. by subst.
  - apply andb_prop in Hk as [Hs Hi].
    apply String.eqb_eq in Hs. apply Z.eqb_eq in Hi. by subst.
Qed.

Lemma first_translation_without_contexts key_of entries :
  (forall c, contains (Ascii.ascii_of_nat 4) (msgid_of (key_of c)) = true) ->
  Forall without_contexts entries ->
  first_translation key_of entries = None.
Proof.
  intros Hkey. induction 1 as [|e entries He _ IH]; [done|].
  destruct e as [|c]; simpl; [done|].
  destruct (Gettext.catalog_get _ _) as [tmsg|] eqn:Hget; [|done].
  apply catalog_get_key, in_map_iff in Hget as (entry & Hentry & HIn).
  simpl in He. rewrite Forall_forall in He.
  specialize (He entry (proj2 (list_elem_of_In _ _) HIn)).
  rewrite Hentry, Hkey in He. discriminate.
Qed.


